(** * indiekit-syndicator-bluesky: post composition and embed selection

    A shallow embedding of [lib/utils.js] and [lib/bluesky.js].

    JavaScript strings are sequences of UTF-16 code units, and [length],
    [slice], [trim], [includes] and the regular expressions of the source all
    work on code units, so a string is a [list N] here.  External libraries
    (html-to-text, sharp, jsdom, the WHATWG URL parser, fetch, the AT protocol
    agent) are parameters of the sections that use them. *)

From Stdlib Require Import String Ascii.
From Stdlib Require Import ZArith NArith List Bool Lia.
From Equations Require Import Equations.
From Equations.Prop Require Import Logic.
Import ListNotations.

Set Implicit Arguments.
Local Open Scope Z_scope.

(** ** JavaScript values used by the source *)

Module JS.

Definition code_unit := N.
Definition jsstring := list code_unit.

(** An ASCII literal of the source as code units. *)
Definition lit (s : string) : jsstring :=
  map N_of_ascii (list_ascii_of_string s).

Definition dquote : code_unit := 34%N.   (* the double quote character *)
Definition squote : code_unit := 39%N.   (* the single quote character *)
Definition newline : code_unit := 10%N.  (* "\n" *)

(** [s.length] as a JavaScript number. *)
Definition len {A} (l : list A) : Z := Z.of_nat (length l).

(** Truthiness of a string: the empty string is falsy. *)
Definition truthy (s : jsstring) : bool :=
  match s with [] => false | _ :: _ => true end.

(** Truthiness of a property that is a string when present
    ([undefined] and [""] are both falsy). *)
Definition truthy_opt (o : option jsstring) : bool :=
  match o with Some s => truthy s | None => false end.

Definition eqs (a b : jsstring) : bool :=
  if list_eq_dec N.eq_dec a b then true else false.

(** An error object, as thrown by the libraries and by [new Error(msg)]. *)
Record Error := mkError { message : jsstring }.

Inductive result (A : Type) : Type :=
| Ok (a : A)
| Throw (e : Error).
Arguments Ok {A} a.
Arguments Throw {A} e.

(** [String.prototype.slice] and [Array.prototype.slice]: a negative index
    counts from the end, and both indices are clamped to the length. *)
Definition rel_index (n i : Z) : Z :=
  if i <? 0 then Z.max (n + i) 0 else Z.min i n.

Definition slice {A} (l : list A) (from to : Z) : list A :=
  let n := len l in
  let k := rel_index n from in
  let final := rel_index n to in
  firstn (Z.to_nat (final - k)) (skipn (Z.to_nat k) l).

(** [l[i]]: [undefined] outside the array. *)
Definition index {A} (l : list A) (i : Z) : option A :=
  if i <? 0 then None else nth_error l (Z.to_nat i).

(** [Array.prototype.at]. *)
Definition at_ {A} (l : list A) (i : Z) : option A :=
  let k := if i <? 0 then len l + i else i in
  if k <? 0 then None else nth_error l (Z.to_nat k).

(** White space and line terminators: the characters matched by [\s] and
    removed by [trim]. *)
Definition is_space (c : code_unit) : bool :=
  ((9 <=? c) && (c <=? 13) || (c =? 32) || (c =? 160) || (c =? 5760)
   || (8192 <=? c) && (c <=? 8202) || (c =? 8232) || (c =? 8233)
   || (c =? 8239) || (c =? 8287) || (c =? 12288) || (c =? 65279))%N.

(** Line terminators: the characters [.] does not match. *)
Definition is_line_terminator (c : code_unit) : bool :=
  ((c =? 10) || (c =? 13) || (c =? 8232) || (c =? 8233))%N.

Fixpoint trimStart (s : jsstring) : jsstring :=
  match s with
  | c :: s' => if is_space c then trimStart s' else s
  | [] => []
  end.

Definition trimEnd (s : jsstring) : jsstring := rev (trimStart (rev s)).

Definition trim (s : jsstring) : jsstring := trimEnd (trimStart s).

Fixpoint startsWith (s pat : jsstring) : bool :=
  match pat, s with
  | [], _ => true
  | p :: pat', c :: s' => (c =? p)%N && startsWith s' pat'
  | _ :: _, [] => false
  end.

Definition endsWith (s pat : jsstring) : bool :=
  startsWith (rev s) (rev pat).

Fixpoint includes (s pat : jsstring) : bool :=
  startsWith s pat
  || match s with [] => false | _ :: s' => includes s' pat end.

(** [s.replace(pat, repl)] for a string pattern and a replacement without
    [$] patterns: the first occurrence only. *)
Fixpoint replace_first (s pat repl : jsstring) : jsstring :=
  if startsWith s pat then repl ++ skipn (length pat) s
  else match s with
       | [] => []
       | c :: s' => c :: replace_first s' pat repl
       end.

(** [s.replace(/c/g, repl)] for a single character [c]. *)
Definition replace_all_char (c : code_unit) (repl s : jsstring) : jsstring :=
  flat_map (fun x => if (x =? c)%N then repl else [x]) s.

(** [s.split(/\s+/)]: cut at every maximal run of white space. *)
Fixpoint split_spaces_from (skipping : bool) (acc s : jsstring)
  : list jsstring :=
  match s with
  | [] => [rev acc]
  | c :: s' =>
      if is_space c
      then if skipping then split_spaces_from true [] s'
           else rev acc :: split_spaces_from true [] s'
      else split_spaces_from false (c :: acc) s'
  end.

Definition split_spaces (s : jsstring) : list jsstring :=
  split_spaces_from false [] s.

(** [s.split(c)] for a one-character separator. *)
Fixpoint split_on_from (sep : code_unit) (acc s : jsstring) : list jsstring :=
  match s with
  | [] => [rev acc]
  | c :: s' =>
      if (c =? sep)%N then rev acc :: split_on_from sep [] s'
      else split_on_from sep (c :: acc) s'
  end.

Definition split_on (sep : code_unit) (s : jsstring) : list jsstring :=
  split_on_from sep [] s.

(** [lines.join(sep)]. *)
Fixpoint join (sep : jsstring) (l : list jsstring) : jsstring :=
  match l with
  | [] => []
  | [x] => x
  | x :: rest => x ++ sep ++ join sep rest
  end.

(** [[...new Set(l)]]: duplicates removed, first occurrences kept in order. *)
Fixpoint dedup_from (seen l : list jsstring) : list jsstring :=
  match l with
  | [] => []
  | x :: rest =>
      if existsb (eqs x) seen then dedup_from seen rest
      else x :: dedup_from (x :: seen) rest
  end.

Definition dedup (l : list jsstring) : list jsstring := dedup_from [] l.

(** *** Regular expression pieces *)

(** The longest prefix of characters satisfying [p], and the rest. *)
Fixpoint span (p : code_unit -> bool) (s : jsstring) : jsstring * jsstring :=
  match s with
  | [] => ([], [])
  | c :: s' =>
      if p c then let (a, b) := span p s' in (c :: a, b) else ([], s)
  end.

(** A literal at the start of [s]; the rest of [s] after it. *)
Fixpoint strip_prefix (pat s : jsstring) : option jsstring :=
  match pat, s with
  | [], _ => Some s
  | p :: pat', c :: s' => if (c =? p)%N then strip_prefix pat' s' else None
  | _ :: _, [] => None
  end.

(** Case folding of the [i] flag (without [u]): an ASCII letter matches its
    other case, and no character outside ASCII folds into ASCII. *)
Definition fold_case (c : code_unit) : code_unit :=
  if ((97 <=? c) && (c <=? 122))%N then (c - 32)%N else c.

(** A literal at the start of [s] under the [i] flag; returns the matched
    text as it stands in [s], and the rest. *)
Fixpoint strip_prefix_ci (pat s : jsstring) : option (jsstring * jsstring) :=
  match pat, s with
  | [], _ => Some ([], s)
  | p :: pat', c :: s' =>
      if (fold_case c =? fold_case p)%N
      then match strip_prefix_ci pat' s' with
           | Some (m, r) => Some (c :: m, r)
           | None => None
           end
      else None
  | _ :: _, [] => None
  end.

(** The matches of a global regular expression, left to right.  [here s]
    matches at the start of [s] and returns what it reports together with the
    text after the match; the search resumes after a match, and one character
    further after a failure.  Every expression of the source consumes at
    least one character. *)
Fixpoint matchAll_from {A} (here : jsstring -> option (A * jsstring))
    (skip : nat) (s : jsstring) : list A :=
  match s with
  | [] => []
  | _ :: s' =>
      match skip with
      | S k => matchAll_from here k s'
      | O =>
          match here s with
          | Some (m, rest) =>
              m :: matchAll_from here (length s - length rest - 1) s'
          | None => matchAll_from here 0 s'
          end
      end
  end.

Definition matchAll {A} (here : jsstring -> option (A * jsstring))
    (s : jsstring) : list A :=
  matchAll_from here 0 s.

(** The first match of a regular expression without the [g] flag. *)
Fixpoint match_first {A} (here : jsstring -> option A) (s : jsstring)
  : option A :=
  match here s with
  | Some m => Some m
  | None => match s with [] => None | _ :: s' => match_first here s' end
  end.

End JS.
Import JS.

(** ** lib/utils.js: text, URL and image helpers *)

(** JF2 properties, the input of the syndicator.  A marker or a title that is
    absent is [None]; the source tests them for truthiness, so an empty
    string counts as absent too. *)
Record Content := mkContent {
  html : option jsstring;
  text : option jsstring
}.

(** A JF2 media object.  [photo_url] is [None] when [url] is not a string. *)
Record Photo := mkPhoto {
  photo_url : option jsstring;
  alt : option jsstring
}.

Record Properties := mkProperties {
  name : option jsstring;
  url : jsstring;
  content : option Content;
  photo : option (list Photo);
  like_of : option jsstring;
  repost_of : option jsstring;
  bookmark_of : option jsstring;
  in_reply_to : option jsstring
}.

(** [properties.content?.html] and [properties.content?.text]. *)
Definition content_html (p : Properties) : option jsstring :=
  match content p with Some c => html c | None => None end.

Definition content_text (p : Properties) : option jsstring :=
  match content p with Some c => text c | None => None end.

(** Truthiness of a property that is an object when present. *)
Definition is_some {A} (o : option A) : bool :=
  match o with Some _ => true | None => false end.

Definition or_empty (o : option jsstring) : jsstring :=
  match o with Some s => s | None => [] end.

Definition ellipsis : jsstring := lit "...".
Definition space : jsstring := lit " ".
Definition slash : jsstring := lit "/".

(** The red heart of the like marker: U+2764 U+FE0F, two code units. *)
Definition heart : jsstring := [10084%N; 65039%N].

(** *** escapeXml (lines 26-33) *)
Definition escapeXml (s : jsstring) : jsstring :=
  replace_all_char squote (lit "&apos;")
    (replace_all_char dquote (lit "&quot;")
      (replace_all_char 62%N (lit "&gt;")
        (replace_all_char 60%N (lit "&lt;")
          (replace_all_char 38%N (lit "&amp;") s)))).

(** *** wrapText (lines 42-81) *)

(** The [for (const word of words)] loop; [break] leaves the loop with the
    lines and the current line as they are. *)
Fixpoint wrapText_loop (maxCharsPerLine maxLines : Z) (words : list jsstring)
    (lines : list jsstring) (currentLine : jsstring)
  : list jsstring * jsstring :=
  match words with
  | [] => (lines, currentLine)
  | word :: rest =>
      if len lines >=? maxLines then (lines, currentLine)
      else
        let testLine :=
          if truthy currentLine then currentLine ++ space ++ word else word in
        if len testLine <=? maxCharsPerLine
        then wrapText_loop maxCharsPerLine maxLines rest lines testLine
        else if truthy currentLine
        then wrapText_loop maxCharsPerLine maxLines rest
               (lines ++ [currentLine]) word
        else wrapText_loop maxCharsPerLine maxLines rest
               (lines ++ [slice word 0 (maxCharsPerLine - 3) ++ ellipsis]) []
  end.

(** [lines[i] = v] for an index inside the array. *)
Fixpoint set_nth (l : list jsstring) (i : nat) (v : jsstring)
  : list jsstring :=
  match l, i with
  | [], _ => []
  | _ :: rest, O => v :: rest
  | x :: rest, S k => x :: set_nth rest k v
  end.

(** [wrapText] throws a [TypeError] when it reads [length] of a last line
    that does not exist, which needs [maxLines <= 0]. *)
Definition wrapText (text : jsstring) (maxCharsPerLine maxLines : Z)
  : result (list jsstring) :=
  let words := split_spaces text in
  let (lines0, currentLine) :=
    wrapText_loop maxCharsPerLine maxLines words [] [] in
  let lines :=
    if truthy currentLine && (len lines0 <? maxLines)
    then lines0 ++ [currentLine] else lines0 in
  if (len lines =? maxLines)
     && (len words >? len (split_spaces (join space lines)))
  then
    match index lines (maxLines - 1) with
    | Some lastLine =>
        let i := Z.to_nat (maxLines - 1) in
        if len lastLine >? maxCharsPerLine - 3
        then Ok (set_nth lines i
                   (slice lastLine 0 (maxCharsPerLine - 3) ++ ellipsis))
        else if negb (endsWith lastLine ellipsis)
        then Ok (set_nth lines i (lastLine ++ ellipsis))
        else Ok lines
    | None => Throw (mkError (lit "Cannot read properties of undefined"))
    end
  else Ok lines.

(** A line that respects the limit of [wrapText]. *)
Definition fits (maxCharsPerLine : Z) (line : jsstring) : Prop :=
  len line <= maxCharsPerLine.

(** *** uriToPostUrl (lines 19, 173-180) *)

Definition not_slash (c : code_unit) : bool := negb (c =? 47)%N.
Definition not_dot (c : code_unit) : bool := negb (c =? 46)%N.

(** [AT_URI] at the start of [s]: the groups [did], [type] and [rkey].
    Each [[^/]+] takes the longest run without a slash; a shorter run would be
    followed by a character that is not the slash the expression needs. *)
Definition AT_URI_here (s : jsstring)
  : option (jsstring * jsstring * jsstring) :=
  match strip_prefix (lit "at://") s with
  | None => None
  | Some s1 =>
      match strip_prefix (lit "did:") s1 with
      | None => None
      | Some s2 =>
          match span not_slash s2 with
          | ((_ :: _) as d, _ :: s3) =>
              match span not_slash s3 with
              | ((_ :: _) as type, _ :: s4) =>
                  match span not_slash s4 with
                  | ((_ :: _) as rkey, _) => Some (lit "did:" ++ d, type, rkey)
                  | _ => None
                  end
              | _ => None
              end
          | _ => None
          end
      end
  end.

(** [undefined] in a template literal. *)
Definition undefined_text : jsstring := lit "undefined".

Definition uriToPostUrl (profileUrl uri : jsstring) : option jsstring :=
  match match_first AT_URI_here uri with
  | Some (did, type, rkey) =>
      let type' :=
        match at_ (split_on 46%N type) (-1) with
        | Some t => t
        | None => undefined_text
        end in
      Some (profileUrl ++ slash ++ did ++ slash ++ type' ++ slash ++ rkey)
  | None => None
  end.

(** *** htmlToStatusText (lines 285-299) *)

(** [https?:\/\/], case sensitive: the scheme matched and the rest. *)
Definition http_scheme (s : jsstring) : option (jsstring * jsstring) :=
  match strip_prefix (lit "http") s with
  | None => None
  | Some s1 =>
      match strip_prefix (lit "s://") s1 with
      | Some s2 => Some (lit "https://", s2)
      | None =>
          match strip_prefix (lit "://") s1 with
          | Some s2 => Some (lit "http://", s2)
          | None => None
          end
      end
  end.

(** The lazy [.+?] before a closing double quote, after its first character:
    the text up to the first double quote, with no line terminator in it. *)
Fixpoint lazy_until_dquote (s : jsstring) : option (jsstring * jsstring) :=
  match s with
  | [] => None
  | c :: s' =>
      if (c =? dquote)%N then Some ([], s')
      else if is_line_terminator c then None
      else match lazy_until_dquote s' with
           | Some (m, r) => Some (c :: m, r)
           | None => None
           end
  end.

(** The expression of line 286 at the start of [s]: group 1 and the rest. *)
Definition href_dquoted_here (s : jsstring) : option (jsstring * jsstring) :=
  match strip_prefix (lit "href=" ++ [dquote]) s with
  | None => None
  | Some s1 =>
      match http_scheme s1 with
      | Some (scheme, c :: s2) =>
          if is_line_terminator c then None
          else match lazy_until_dquote s2 with
               | Some (m, r) => Some (scheme ++ c :: m, r)
               | None => None
               end
      | _ => None
      end
  end.

Section HtmlToText.

(** [htmlToText] of the html-to-text package with the options of lines
    289-295 (anchors without their href, images skipped, no word wrap). *)
Variable htmlToText : jsstring -> jsstring.

Definition htmlToStatusText (html : jsstring) : jsstring :=
  let hrefs := matchAll href_dquoted_here html in
  let text := htmlToText html in
  match (if 0 <? len hrefs then at_ hrefs (-1) else None) with
  | Some lastHref =>
      if truthy lastHref then text ++ space ++ lastHref else text
  | None => text
  end.

(** *** getPostText (lines 188-210) *)

(** Lines 189-197: the text before truncation. *)
Definition getPostText_status (properties : Properties) : jsstring :=
  if truthy_opt (name properties)
  then or_empty (name properties) ++ space ++ url properties
  else if truthy_opt (content_html properties)
  then htmlToStatusText (or_empty (content_html properties))
  else if truthy_opt (content_text properties)
  then or_empty (content_text properties)
  else [].

(** The permalink line kept when truncating (line 202). *)
Definition permalink_suffix (properties : Properties) : jsstring :=
  [newline; newline] ++ url properties.

Definition getPostText (properties : Properties) (includePermalink : bool)
  : jsstring :=
  let text := getPostText_status properties in
  if len text >? 300
  then
    let suffix := permalink_suffix properties in
    let maxLen := 300 - len suffix - 3 in
    trim (slice text 0 maxLen) ++ ellipsis ++ suffix
  else if includePermalink && negb (includes text (url properties))
  then text ++ [newline; newline] ++ url properties
  else text.

(** *** getLikePostText (lines 218-248) *)

(** The marker line of a like (lines 232 and 241). *)
Definition like_suffix (likedUrl : jsstring) : jsstring :=
  [newline; newline] ++ heart ++ space ++ likedUrl.

(** Lines 219-226: the content or comment. *)
Definition getLikePostText_content (properties : Properties) : jsstring :=
  if truthy_opt (content_html properties)
  then htmlToStatusText (or_empty (content_html properties))
  else if truthy_opt (content_text properties)
  then or_empty (content_text properties)
  else [].

(** Lines 219-237: the text before truncation. *)
Definition getLikePostText_status (properties : Properties)
    (likedUrl : jsstring) : jsstring :=
  let text := getLikePostText_content properties in
  if truthy text
  then if negb (includes text likedUrl)
       then text ++ [newline; newline] ++ heart ++ space ++ likedUrl
       else text
  else heart ++ space ++ likedUrl.

Definition getLikePostText (properties : Properties) (likedUrl : jsstring)
  : jsstring :=
  let text := getLikePostText_status properties likedUrl in
  if len text >? 300
  then
    let suffix := like_suffix likedUrl in
    let maxLen := 300 - len suffix - 3 in
    let contentPart := trim (slice (replace_first text suffix []) 0 maxLen) in
    contentPart ++ ellipsis ++ suffix
  else text.

End HtmlToText.

(** *** extractUrlsFromText (lines 366-376) *)

(** [https?:\/\/] under the [i] flag: the text matched and the rest. *)
Definition http_scheme_ci (s : jsstring) : option (jsstring * jsstring) :=
  match strip_prefix_ci (lit "http") s with
  | None => None
  | Some (m1, s1) =>
      match strip_prefix_ci (lit "s://") s1 with
      | Some (m2, s2) => Some (m1 ++ m2, s2)
      | None =>
          match strip_prefix_ci (lit "://") s1 with
          | Some (m2, s2) => Some (m1 ++ m2, s2)
          | None => None
          end
      end
  end.

(** The negated class of line 370: no white space, angle bracket, quote,
    closing parenthesis or closing square bracket. *)
Definition bare_url_char (c : code_unit) : bool :=
  negb (is_space c || (c =? 60) || (c =? 62) || (c =? dquote)
        || (c =? squote) || (c =? 41) || (c =? 93))%N.

(** [urlRegex] at the start of [s]: the whole match and the rest. *)
Definition bare_url_here (s : jsstring) : option (jsstring * jsstring) :=
  match http_scheme_ci s with
  | Some (scheme, s1) =>
      match span bare_url_char s1 with
      | ((_ :: _) as run, rest) => Some (scheme ++ run, rest)
      | _ => None
      end
  | None => None
  end.

(** [s.replace(/[...]+$/, empty)]: the trailing run of characters of the
    class is removed. *)
Definition strip_trailing (p : code_unit -> bool) (s : jsstring) : jsstring :=
  rev (snd (span p (rev s))).

(** The class [[.,;:!?)]] of line 374. *)
Definition trailing_punctuation (c : code_unit) : bool :=
  ((c =? 46) || (c =? 44) || (c =? 59) || (c =? 58) || (c =? 33)
   || (c =? 63) || (c =? 41))%N.

Definition extractUrlsFromText (text : option jsstring) : list jsstring :=
  if negb (truthy_opt text) then []
  else
    let matches := matchAll bare_url_here (or_empty text) in
    map (fun url =>
           strip_trailing (fun c => (c =? 41)%N)
             (strip_trailing trailing_punctuation url))
        matches.

(** *** getExternalUrl (lines 384-449) *)

Definition not_quote (c : code_unit) : bool :=
  negb ((c =? dquote) || (c =? squote))%N.

(** The expression of line 406 at the start of [s]: group 1 and the rest. *)
Definition href_quoted_here (s : jsstring) : option (jsstring * jsstring) :=
  match strip_prefix_ci (lit "href=") s with
  | Some (_, q :: s1) =>
      if not_quote q then None
      else
        match http_scheme_ci s1 with
        | Some (scheme, s2) =>
            match span not_quote s2 with
            | ((_ :: _) as run, _ :: rest) => Some (scheme ++ run, rest)
            | _ => None
            end
        | None => None
        end
  | _ => None
  end.

Section ExternalUrl.

(** [new URL(url).hostname] of the WHATWG URL parser, which throws on a
    string that is not a URL. *)
Variable url_hostname : jsstring -> result jsstring.

Definition getExternalUrl (properties : Properties)
    (ownDomain : option jsstring) : option jsstring :=
  if truthy_opt (like_of properties) then like_of properties
  else if truthy_opt (bookmark_of properties) then bookmark_of properties
  else if truthy_opt (in_reply_to properties) then in_reply_to properties
  else
    let urls0 :=
      if truthy_opt (content_html properties)
      then matchAll href_quoted_here (or_empty (content_html properties))
      else [] in
    let urls1 :=
      if truthy_opt (content_html properties)
      then urls0 ++ extractUrlsFromText (content_html properties)
      else urls0 in
    let urls2 :=
      if truthy_opt (content_text properties)
      then urls1 ++ extractUrlsFromText (content_text properties)
      else urls1 in
    let urls := dedup urls2 in
    if len urls =? 0 then None
    else
      if truthy_opt ownDomain
      then
        let externalUrls :=
          filter (fun url =>
                    match url_hostname url with
                    | Ok hostname =>
                        negb (includes hostname (or_empty ownDomain))
                    | Throw _ => true
                    end) urls in
        if len externalUrls >? 0 then at_ externalUrls (-1)
        else at_ urls (-1)
      else at_ urls (-1).

End ExternalUrl.

(** Lines 400-424 of [getExternalUrl]: the URLs found in the content,
    without duplicates. *)
Definition harvestUrls (properties : Properties) : list jsstring :=
  let urls0 :=
    if truthy_opt (content_html properties)
    then matchAll href_quoted_here (or_empty (content_html properties))
    else [] in
  let urls1 :=
    if truthy_opt (content_html properties)
    then urls0 ++ extractUrlsFromText (content_html properties)
    else urls0 in
  let urls2 :=
    if truthy_opt (content_text properties)
    then urls1 ++ extractUrlsFromText (content_text properties)
    else urls1 in
  dedup urls2.

(** *** constrainImage and getPostImage (lines 257-278) *)

Definition Buffer := list Byte.byte.

Record ImageAsset := mkImageAsset {
  buffer : Buffer;
  mimeType : jsstring
}.

Definition MAX_SIZE : Z := 1024 * 1024.

Section Image.

(** The JPEG encoder behind [sharp(buffer).jpeg({ quality }).toBuffer()],
    for a quality sharp accepts.  It throws on input that is not an image. *)
Variable jpeg_codec : Buffer -> Z -> result Buffer.

Definition invalid_quality : Error :=
  mkError (lit "Expected integer between 1 and 100 for quality").

(** [sharp(buffer).jpeg({ quality }).toBuffer()].  sharp validates its
    options: a quality outside 1..100 is refused with an error before
    anything is encoded. *)
Definition sharp_jpeg (buffer : Buffer) (quality : Z) : result Buffer :=
  if (1 <=? quality) && (quality <=? 100) then jpeg_codec buffer quality
  else Throw invalid_quality.

(** The recursion of [constrainImage] has no floor of its own; it ends
    because sharp refuses a quality below 1. *)
Equations? constrainImage (buffer : Buffer) (maxBytes quality : Z)
  : result Buffer by wf (Z.to_nat quality) lt :=
  constrainImage buffer maxBytes quality
    with inspect (sharp_jpeg buffer quality) => {
    | exist _ (Throw e) _ := Throw e;
    | exist _ (Ok compressed) _
        with inspect (len compressed >? maxBytes) => {
        | exist _ true _ := constrainImage buffer maxBytes (quality - 5);
        | exist _ false _ := Ok compressed } }.
Proof.
  unfold sharp_jpeg in *.
  destruct (1 <=? quality) eqn:Hq; simpl in *; [| discriminate].
  apply Z.leb_le in Hq. lia.
Qed.

(** [constrainImage] with its depth of recursion counted: [None] when more
    than [fuel] encodings are needed. *)
Fixpoint constrainImage_within (fuel : nat) (buffer : Buffer)
    (maxBytes quality : Z) : option (result Buffer) :=
  match fuel with
  | O => None
  | S fuel' =>
      match sharp_jpeg buffer quality with
      | Throw e => Some (Throw e)
      | Ok compressed =>
          if len compressed >? maxBytes
          then constrainImage_within fuel' buffer maxBytes (quality - 5)
          else Some (Ok compressed)
      end
  end.

Definition getPostImage (buffer : Buffer) (mimeType : jsstring)
  : result ImageAsset :=
  if len buffer <? MAX_SIZE then Ok (mkImageAsset buffer mimeType)
  else
    match constrainImage buffer MAX_SIZE 90 with
    | Ok compressed => Ok (mkImageAsset compressed (lit "image/jpeg"))
    | Throw e => Throw e
    end.

End Image.

(** ** The outside world

    Network calls (fetch, the AT protocol agent) are effects: they can fail,
    they can answer differently from one call to the next, and the claims
    speak of which of them a run performs.  A computation therefore threads
    the trace of the calls made so far, newest first, and the answer of the
    world to a call may depend on that whole trace. *)

Record Facet := mkFacet {
  byteStart : Z;
  byteEnd : Z;
  feature : jsstring
}.

Record RichText := mkRichText {
  rt_text : jsstring;
  rt_facets : option (list Facet)
}.

(** The blob reference returned by an upload. *)
Record BlobRef := mkBlobRef {
  blob_link : jsstring;
  blob_size : Z
}.

(** An entry of [app.bsky.embed.images]; [image] is [undefined] for a photo
    whose [url] is not a string. *)
Record Image := mkImage {
  image_alt : jsstring;
  image : option BlobRef
}.

Record External := mkExternal {
  ext_uri : jsstring;
  ext_title : jsstring;
  ext_description : jsstring;
  ext_thumb : option BlobRef
}.

(** A strong reference to a record: what [getPost] returns. *)
Record PostRef := mkPostRef {
  ref_uri : jsstring;
  ref_cid : jsstring
}.

Inductive Embed :=
| EmbedImages (images : list Image)            (* app.bsky.embed.images *)
| EmbedExternal (external : External)          (* app.bsky.embed.external *)
| EmbedRecord (record : PostRef)               (* app.bsky.embed.record *)
| EmbedRecordWithMedia (record : PostRef) (media : list Image).

Record PostData := mkPostData {
  post_text : jsstring;
  post_facets : option (list Facet);
  createdAt : jsstring;
  embed : option Embed
}.

Inductive Event :=
| EvLogin (service identifier password : jsstring)
| EvFetch (url : jsstring)
| EvUploadBlob (blob : Buffer) (encoding : option jsstring)
| EvDetectFacets (text : jsstring)
| EvGetPost (repo rkey : option jsstring)
| EvLike (uri cid : jsstring)
| EvRepost (uri cid : jsstring)
| EvPost (postData : PostData)
| EvConsoleError (msg : jsstring).

Definition Trace := list Event.

(** The calls that create a record on the account. *)
Definition is_posting (e : Event) : bool :=
  match e with
  | EvLike _ _ | EvRepost _ _ | EvPost _ => true
  | _ => false
  end.

(** A fetch response, as far as the source reads it. *)
Record Response := mkResponse {
  ok : bool;
  status_line : jsstring;             (* status and statusText, as printed *)
  content_type : option jsstring;     (* headers.get("Content-Type") *)
  body_text : result jsstring;        (* await response.text() *)
  body_blob : result Buffer           (* await response.blob() *)
}.

(** A parsed page, as far as the source queries it: the [content] attribute
    of the meta elements and the text of the title element, [None] when the
    element or the attribute is missing. *)
Record Document := mkDocument {
  og_title : option jsstring;
  title_text : option jsstring;
  og_description : option jsstring;
  meta_description : option jsstring;
  og_image : option jsstring
}.

Record HtmlLink := mkHtmlLink {
  link_text : jsstring;
  link_href : jsstring
}.

Record Env := mkEnv {
  (* effects *)
  net_fetch : Trace -> jsstring -> result Response;
  atp_login : Trace -> jsstring -> jsstring -> jsstring -> result unit;
  atp_uploadBlob : Trace -> Buffer -> option jsstring -> result BlobRef;
  atp_detectFacets : Trace -> jsstring -> result (option (list Facet));
  atp_getPost : Trace -> option jsstring -> option jsstring -> result PostRef;
  atp_like : Trace -> jsstring -> jsstring -> result jsstring;
  atp_repost : Trace -> jsstring -> jsstring -> result jsstring;
  atp_post : Trace -> PostData -> result jsstring;
  clock : Trace -> jsstring;
  (* libraries *)
  htmlToText : jsstring -> jsstring;
  jsdom : jsstring -> result Document;
  url_hostname : jsstring -> result jsstring;
  url_pathname : jsstring -> result jsstring;
  url_origin : jsstring -> result jsstring;
  url_resolve : jsstring -> jsstring -> result jsstring;
  jpeg_codec : Buffer -> Z -> result Buffer;
  og_png : list jsstring -> Z -> jsstring -> result Buffer;
  isSameOrigin : jsstring -> jsstring -> result bool;
  getCanonicalUrl : jsstring -> jsstring -> result jsstring;
  (* functions [bluesky.js] imports from [utils.js] that are not in it *)
  getRepostPostText : Properties -> jsstring -> jsstring;
  getBookmarkPostText : Properties -> jsstring -> jsstring;
  buildPostText : Properties -> option jsstring -> jsstring;
  extractHtmlLinks : jsstring -> list HtmlLink;
  buildLinkFacets : jsstring -> list HtmlLink -> list Facet
}.

(** Computations: the trace in, a value or an exception and the trace out. *)
Definition M (A : Type) : Type := Trace -> result A * Trace.

Definition ret {A} (a : A) : M A := fun tr => (Ok a, tr).

Definition throw {A} (e : Error) : M A := fun tr => (Throw e, tr).

Definition bind {A B} (m : M A) (f : A -> M B) : M B :=
  fun tr =>
    match m tr with
    | (Ok a, tr') => f a tr'
    | (Throw e, tr') => (Throw e, tr')
    end.

(** [try { m } catch (error) { h error }]. *)
Definition try_catch {A} (m : M A) (h : Error -> M A) : M A :=
  fun tr =>
    match m tr with
    | (Ok a, tr') => (Ok a, tr')
    | (Throw e, tr') => h e tr'
    end.

(** A library call that may throw but has no effect. *)
Definition lift {A} (r : result A) : M A := fun tr => (r, tr).

(** A call to the outside: answered from the trace so far, then recorded. *)
Definition call {A} (answer : Trace -> result A) (e : Event) : M A :=
  fun tr => (answer tr, e :: tr).

Declare Scope js_scope.
Delimit Scope js_scope with js.
Notation "x <- m ;; k" := (bind m (fun x => k))
  (at level 61, m at next level, right associativity) : js_scope.
Notation "m ;;; k" := (bind m (fun _ => k))
  (at level 61, right associativity) : js_scope.

(** [Promise.all] over promises that are all started: every computation
    runs, and the first failure, if any, is the failure of the whole. *)
Fixpoint all_settled {A} (ms : list (M A)) : M (list (result A)) :=
  match ms with
  | [] => ret []
  | m :: rest =>
      fun tr =>
        let (r, tr1) := m tr in
        match all_settled rest tr1 with
        | (Ok rs, tr2) => (Ok (r :: rs), tr2)
        | (Throw e, tr2) => (Throw e, tr2)
        end
  end.

Fixpoint first_failure {A} (rs : list (result A)) : result (list A) :=
  match rs with
  | [] => Ok []
  | Throw e :: _ => Throw e
  | Ok a :: rest =>
      match first_failure rest with
      | Ok l => Ok (a :: l)
      | Throw e => Throw e
      end
  end.

Definition Promise_all {A} (ms : list (M A)) : M (list A) :=
  (rs <- all_settled ms ;; lift (first_failure rs))%js.

(** *** Statements about runs *)

(** An upload within the byte budget of an image. *)
Definition small_upload (e : Event) : Prop :=
  match e with
  | EvUploadBlob blob _ => len blob <= MAX_SIZE
  | _ => True
  end.


(** A call of a native action: no post is created and no text annotated. *)
Definition native_only (e : Event) : Prop :=
  match e with
  | EvPost _ | EvDetectFacets _ => False
  | _ => True
  end.

(** A call of the upload phase: a login, a fetch or an upload. *)
Definition upload_phase (e : Event) : Prop :=
  match e with
  | EvLogin _ _ _ | EvFetch _ | EvUploadBlob _ _ => True
  | _ => False
  end.

(** A call made while a link card is built. *)
Definition card_events (e : Event) : Prop :=
  match e with
  | EvLogin _ _ _ | EvFetch _ | EvUploadBlob _ _ | EvConsoleError _ => True
  | _ => False
  end.




(** A call that creates no record on the account. *)
Definition quiet (e : Event) : Prop := is_posting e = false.

(** [tr'] is [tr] with more calls in front, all of them satisfying [P]. *)
Definition extends_with (P : Event -> Prop) (tr tr' : Trace) : Prop :=
  exists evs, tr' = evs ++ tr /\ Forall P evs.

(** Every run of [m] adds only calls satisfying [P], and a value it returns
    satisfies [R]. *)
Definition run_spec {A} (P : Event -> Prop) (R : A -> Prop) (m : M A) : Prop :=
  forall tr,
    extends_with P tr (snd (m tr))
    /\ (forall a, fst (m tr) = Ok a -> R a).

Definition any {A} (a : A) : Prop := True.

(** *** fetchOpenGraphData (lines 306-359) *)

Record Metadata := mkMetadata {
  title : jsstring;
  description : jsstring;
  imageUrl : option jsstring
}.

(** [a || b]: the first operand when it is a non-empty string. *)
Definition or_else (a : option jsstring) (b : jsstring) : jsstring :=
  if truthy_opt a then or_empty a else b.

Section Utils.

Variable env : Env.

Local Open Scope js_scope.

Definition fetch (url : jsstring) : M Response :=
  call (fun tr => net_fetch env tr url) (EvFetch url).

Definition console_error (msg : jsstring) : M unit :=
  call (fun _ => Ok tt) (EvConsoleError msg).

(** What is returned when the page cannot be read (lines 318 and 357). *)
Definition og_fallback (url : jsstring) : Metadata :=
  mkMetadata url [] None.

(** The body of the [try] block (lines 308-354). *)
Definition fetchOpenGraphData_try (url : jsstring) : M Metadata :=
  response <- fetch url ;;
  if negb (ok response) then ret (og_fallback url)
  else
    html <- lift (body_text response) ;;
    doc <- lift (jsdom env html) ;;
    let ogTitle := or_else (og_title doc) (or_else (title_text doc) url) in
    let ogDescription :=
      or_else (og_description doc) (or_else (meta_description doc) []) in
    let ogImage :=
      if truthy_opt (og_image doc) then og_image doc else None in
    ogImage' <-
      (if truthy_opt ogImage && negb (startsWith (or_empty ogImage) (lit "http"))
       then
         origin <- lift (url_origin env url) ;;
         href <- lift (url_resolve env (or_empty ogImage) origin) ;;
         ret (Some href)
       else ret ogImage) ;;
    ret (mkMetadata (slice ogTitle 0 300) (slice ogDescription 0 1000) ogImage').

Definition fetchOpenGraphData (url : jsstring) : M Metadata :=
  try_catch (fetchOpenGraphData_try url)
    (fun error =>
       console_error (lit "Failed to fetch OG data for " ++ url ++ lit ": "
                      ++ message error) ;;;
       ret (og_fallback url)).

(** *** generateDefaultOgImage (lines 93-141)

    The SVG template and its layout arithmetic are left to [og_png], which
    stands for the template of lines 100-133 rendered by sharp; the wrapped
    title, the font size and the escaping are those of the source. *)
Definition generateDefaultOgImage (title siteName : jsstring) : M Buffer :=
  titleLines <- lift (wrapText title 35 4) ;;
  let fontSize := if len titleLines >? 2 then 48 else 56 in
  lift (og_png env (map escapeXml titleLines) fontSize (escapeXml siteName)).

(** *** getPostParts (lines 160-165) *)
Definition getPostParts (url : jsstring)
  : result (option jsstring * option jsstring) :=
  match url_pathname env url with
  | Ok pathname =>
      let pathParts := split_on 47%N pathname in
      Ok (index pathParts 2, index pathParts 4)
  | Throw e => Throw e
  end.

(** *** createRichText (lines 149-153); a third argument is ignored. *)
Definition createRichText (text : jsstring) (linkFacets : list Facet)
  : M RichText :=
  facets <- call (fun tr => atp_detectFacets env tr text) (EvDetectFacets text) ;;
  ret (mkRichText text facets).

End Utils.

(** ** lib/bluesky.js: the syndicator *)

(** The options of the constructor; a flag that is not given is [None]. *)
Record Options := mkOptions {
  opt_identifier : jsstring;
  opt_password : jsstring;
  opt_profileUrl : jsstring;
  opt_serviceUrl : jsstring;
  opt_includePermalink : option bool;
  opt_syndicateExternalLikes : option bool;
  opt_syndicateExternalReposts : option bool
}.

Record Bluesky := mkBluesky {
  identifier : jsstring;
  password : jsstring;
  profileUrl : jsstring;
  serviceUrl : jsstring;
  includePermalink : bool;
  syndicateExternalLikes : bool;
  syndicateExternalReposts : bool
}.

(** The constructor (lines 32-40): the two syndication flags default to
    true, and only an explicit [false] turns them off. *)
Definition new_Bluesky (options : Options) : Bluesky :=
  mkBluesky (opt_identifier options) (opt_password options)
    (opt_profileUrl options) (opt_serviceUrl options)
    (match opt_includePermalink options with Some b => b | None => false end)
    (match opt_syndicateExternalLikes options with
     | Some false => false | _ => true end)
    (match opt_syndicateExternalReposts options with
     | Some false => false | _ => true end).

(** The options of [createExternalEmbed]. *)
Record EmbedOptions := mkEmbedOptions {
  generateDefaultImage : option bool;
  siteName : option jsstring
}.

(** The options of [postPost]. *)
Record PostOptions := mkPostOptions {
  images : option (list Image);
  externalEmbed : option Embed
}.

Section BlueskyClass.

Variable env : Env.
Variable this : Bluesky.

Local Open Scope js_scope.

(** [#client] (lines 47-52): a fresh agent, logged in. *)
Definition client : M unit :=
  call (fun tr =>
          atp_login env tr (serviceUrl this) (identifier this) (password this))
       (EvLogin (serviceUrl this) (identifier this) (password this)).

Definition uploadBlob (blob : Buffer) (encoding : option jsstring)
  : M BlobRef :=
  call (fun tr => atp_uploadBlob env tr blob encoding)
       (EvUploadBlob blob encoding).

Definition client_post (postData : PostData) : M jsstring :=
  call (fun tr => atp_post env tr postData) (EvPost postData).

(** [new Date().toISOString()]. *)
Definition now : M jsstring := fun tr => (Ok (clock env tr), tr).

(** [getPost] (lines 59-66). *)
Definition getPost (postUrl : jsstring) : M PostRef :=
  client ;;;
  postParts <- lift (getPostParts env postUrl) ;;
  call (fun tr => atp_getPost env tr (fst postParts) (snd postParts))
       (EvGetPost (fst postParts) (snd postParts)).

(** [postLike] (lines 73-78). *)
Definition postLike (postUrl : jsstring) : M (option jsstring) :=
  client ;;;
  post <- getPost postUrl ;;
  like <- call (fun tr => atp_like env tr (ref_uri post) (ref_cid post))
               (EvLike (ref_uri post) (ref_cid post)) ;;
  ret (uriToPostUrl (profileUrl this) like).

(** [postRepost] (lines 85-90). *)
Definition postRepost (postUrl : jsstring) : M (option jsstring) :=
  client ;;;
  post <- getPost postUrl ;;
  repost <- call (fun tr => atp_repost env tr (ref_uri post) (ref_cid post))
                 (EvRepost (ref_uri post) (ref_cid post)) ;;
  ret (uriToPostUrl (profileUrl this) repost).

(** [postQuotePost] (lines 99-131). *)
Definition postQuotePost (postUrl : jsstring) (richText : RichText)
    (images : list Image) : M (option jsstring) :=
  client ;;;
  post <- getPost postUrl ;;
  let record := EmbedRecord post in
  let recordWithMedia := EmbedRecordWithMedia post images in
  let embed := if len images >? 0 then recordWithMedia else record in
  createdAt <- now ;;
  let postData :=
    mkPostData (rt_text richText) (rt_facets richText) createdAt (Some embed) in
  quotePost <- client_post postData ;;
  ret (uriToPostUrl (profileUrl this) quotePost).

(** [uploadImageFromUrl] (lines 138-177). *)
Definition uploadImageFromUrl (imageUrl : option jsstring)
  : M (option BlobRef) :=
  if negb (truthy_opt imageUrl) then ret None
  else
    try_catch
      (client ;;;
       response <- fetch env (or_empty imageUrl) ;;
       if negb (ok response) then ret None
       else
         blob <- lift (body_blob response) ;;
         let encoding := or_else (content_type response) (lit "image/jpeg") in
         if negb (startsWith encoding (lit "image/")) then ret None
         else
           image <- lift (getPostImage (jpeg_codec env) blob encoding) ;;
           uploaded <- uploadBlob (buffer image) (Some (mimeType image)) ;;
           ret (Some uploaded))
      (fun error =>
         console_error (lit "Failed to upload OG image: " ++ message error) ;;;
         ret None).

(** [createExternalEmbed] (lines 187-233). *)
Definition createExternalEmbed (url : option jsstring) (options : EmbedOptions)
  : M (option Embed) :=
  if negb (truthy_opt url) then ret None
  else
    let url := or_empty url in
    let generateDefaultImage :=
      match generateDefaultImage options with Some b => b | None => true end in
    try_catch
      (ogData <- fetchOpenGraphData env url ;;
       thumb0 <-
         (if truthy_opt (imageUrl ogData)
          then uploadImageFromUrl (imageUrl ogData)
          else ret None) ;;
       thumb <-
         (if negb (is_some thumb0) && generateDefaultImage
             && truthy (title ogData) && negb (eqs (title ogData) url)
          then
            try_catch
              (site <-
                 (if truthy_opt (siteName options)
                  then ret (or_empty (siteName options))
                  else lift (url_hostname env url)) ;;
               defaultImageBuffer <-
                 generateDefaultOgImage env (title ogData) site ;;
               client ;;;
               uploaded <-
                 uploadBlob defaultImageBuffer (Some (lit "image/png")) ;;
               ret (Some uploaded))
              (fun imageError =>
                 console_error
                   (lit "Failed to generate default OG image: "
                    ++ message imageError) ;;;
                 ret thumb0)
          else ret thumb0) ;;
       ret (Some (EmbedExternal
                    (mkExternal url
                       (if truthy (title ogData) then title ogData else url)
                       (description ogData)
                       thumb))))
      (fun error =>
         console_error
           (lit "Failed to create external embed: " ++ message error) ;;;
         ret None).

(** [postPost] (lines 243-268). *)
Definition postPost (richText : RichText) (options : PostOptions)
  : M (option jsstring) :=
  client ;;;
  let embed :=
    match images options with
    | Some ((_ :: _) as l) => Some (EmbedImages l)
    | _ =>
        match externalEmbed options with
        | Some e => Some e
        | None => None
        end
    end in
  createdAt <- now ;;
  let postData :=
    mkPostData (rt_text richText) (rt_facets richText) createdAt embed in
  post <- client_post postData ;;
  ret (uriToPostUrl (profileUrl this) post).

(** The record [postPost] sends (lines 248-264), when the clock is read
    after the calls of [tr]. *)
Definition postPost_data (richText : RichText) (options : PostOptions)
    (tr : Trace) : PostData :=
  mkPostData (rt_text richText) (rt_facets richText) (clock env tr)
    match images options with
    | Some ((_ :: _) as l) => Some (EmbedImages l)
    | _ => match externalEmbed options with
           | Some e => Some e
           | None => None
           end
    end.

(** [uploadMedia] (lines 276-312); [None] is the [undefined] returned for
    a media object whose [url] is not a string. *)
Definition uploadMedia (media : Photo) (me : jsstring) : M (option BlobRef) :=
  client ;;;
  match photo_url media with
  | None => ret None
  | Some url =>
      try_catch
        (mediaUrl <- lift (getCanonicalUrl env url me) ;;
         mediaResponse <- fetch env mediaUrl ;;
         (if negb (ok mediaResponse)
          then throw (mkError (lit "Failed to fetch media: "
                               ++ status_line mediaResponse))
          else ret tt) ;;;
         blob <- lift (body_blob mediaResponse) ;;
         let encoding := content_type mediaResponse in
         image <-
           (if match encoding with
               | Some e => startsWith e (lit "image/")
               | None => false
               end
            then
              image <- lift (getPostImage (jpeg_codec env) blob
                               (or_empty encoding)) ;;
              ret (buffer image, Some (mimeType image))
            else ret (blob, encoding)) ;;
         response <- uploadBlob (fst image) (snd image) ;;
         ret (Some response))
        (fun error => throw (mkError (message error)))
  end.

(** [post], lines 322-333: the session, then the photos, at most four. *)
Definition post_uploads (properties : Properties) (me : jsstring)
  : M (list Image) :=
  client ;;;
  match photo properties with
  | Some all =>
      let photos := slice all 0 4 in
      let uploads :=
        map (fun photo =>
               image <- uploadMedia photo me ;;
               ret (mkImage (or_else (alt photo) []) image))
            photos in
      Promise_all uploads
  | None => ret []
  end.

Definition no_embed_options : EmbedOptions := mkEmbedOptions None None.

(** [post], lines 335-412: the cascade over the markers. *)
Definition post_dispatch (properties : Properties) (images : list Image)
  : M (option jsstring) :=
  let repostUrl := repost_of properties in
  if truthy_opt repostUrl
  then
    let repostUrl := or_empty repostUrl in
    same <- lift (isSameOrigin env repostUrl (profileUrl this)) ;;
    if same && is_some (content properties)
    then
      let text :=
        getPostText (htmlToText env) properties (includePermalink this) in
      richText <- createRichText env text [] ;;
      postQuotePost repostUrl richText images
    else
      same' <- lift (isSameOrigin env repostUrl (profileUrl this)) ;;
      if same' then postRepost repostUrl
      else if syndicateExternalReposts this
      then
        let text := getRepostPostText env properties repostUrl in
        richText <- createRichText env text [] ;;
        externalEmbed <- createExternalEmbed (Some repostUrl) no_embed_options ;;
        postPost richText (mkPostOptions (Some images) externalEmbed)
      else ret None
  else
    let likeOfUrl := like_of properties in
    if truthy_opt likeOfUrl
    then
      let likeOfUrl := or_empty likeOfUrl in
      same <- lift (isSameOrigin env likeOfUrl (profileUrl this)) ;;
      if same then postLike likeOfUrl
      else if syndicateExternalLikes this
      then
        let text := getLikePostText (htmlToText env) properties likeOfUrl in
        richText <- createRichText env text [] ;;
        externalEmbed <- createExternalEmbed (Some likeOfUrl) no_embed_options ;;
        postPost richText (mkPostOptions (Some images) externalEmbed)
      else ret None
    else
      let bookmarkOfUrl := bookmark_of properties in
      if truthy_opt bookmarkOfUrl
      then
        let bookmarkOfUrl := or_empty bookmarkOfUrl in
        let text := getBookmarkPostText env properties bookmarkOfUrl in
        richText <- createRichText env text [] ;;
        externalEmbed <-
          createExternalEmbed (Some bookmarkOfUrl) no_embed_options ;;
        postPost richText (mkPostOptions (Some images) externalEmbed)
      else
        let externalUrl :=
          getExternalUrl (url_hostname env) properties None in
        let text := buildPostText env properties externalUrl in
        let linkFacets :=
          if truthy_opt (content_html properties)
          then
            let htmlLinks :=
              extractHtmlLinks env (or_empty (content_html properties)) in
            buildLinkFacets env text htmlLinks
          else [] in
        richText <- createRichText env text linkFacets ;;
        externalEmbed <-
          (if len images =? 0
           then
             let embedUrl :=
               if truthy_opt externalUrl then externalUrl
               else Some (url properties) in
             if truthy_opt embedUrl
             then createExternalEmbed embedUrl no_embed_options
             else ret None
           else ret None) ;;
        postPost richText (mkPostOptions (Some images) externalEmbed).

(** [post] (lines 320-416); [None] is the [undefined] of a bare [return]. *)
Definition post (properties : Properties) (me : jsstring)
  : M (option jsstring) :=
  try_catch
    (images <- post_uploads properties me ;;
     post_dispatch properties images)
    (fun error => throw (mkError (message error))).

End BlueskyClass.

(** * Sample inputs

    Concrete posts and a concrete outside world, on which the functions
    above are evaluated. *)

Definition letters (c : code_unit) (n : nat) : jsstring := repeat c n.

Definition note (url : jsstring) (text : jsstring) : Properties :=
  mkProperties None url (Some (mkContent None (Some text)))
    None None None None None.

(** A note of 301 letters. *)
Definition sample_long_note : Properties :=
  note (lit "https://me.example/p1") (letters 97%N 301).

(** A note of 301 characters with a space where the text is cut. *)
Definition sample_spaced_note : Properties :=
  note (lit "https://me.example/p1")
       (letters 97%N 273 ++ space ++ letters 98%N 27).

Definition sample_liked_url : jsstring := lit "https://other.example/post".

(** A title whose second word is 36 characters long. *)
Definition sample_title : jsstring := lit "a " ++ letters 120%N 36.

(** A post that is both a bookmark and a like. *)
Definition sample_bookmark_and_like : Properties :=
  mkProperties None (lit "https://me.example/p2") None None
    (Some (lit "https://liked.example/a")) None
    (Some (lit "https://bookmarked.example/b")) None.

(** A bookmark that is also a reply, and a plain reply. *)
Definition sample_bookmark_and_reply : Properties :=
  mkProperties None (lit "https://me.example/p6") None None
    None None (Some (lit "https://bookmarked.example/b"))
    (Some (lit "https://replied.example/c")).

Definition sample_reply : Properties :=
  mkProperties None (lit "https://me.example/p7") None None
    None None None (Some (lit "https://replied.example/c")).

(** A URL parser that refuses everything; enough where no URL is parsed. *)
Definition no_url_parser (u : jsstring) : result jsstring :=
  Throw (mkError (lit "Invalid URL")).

(** An encoder whose output is two bytes long at every quality: no JPEG
    file is shorter, since each starts with the two-byte SOI marker. *)
Definition two_byte_codec (b : Buffer) (quality : Z) : result Buffer :=
  Ok [Byte.xff; Byte.xd8].

Definition sample_image : Buffer := [Byte.x89; Byte.x50; Byte.x4e; Byte.x47].

(** A buffer of exactly 1 MiB. *)
Definition sample_mebibyte : Buffer := repeat Byte.x00 (Z.to_nat MAX_SIZE).

(** *** A sample world *)

Definition sample_uri : jsstring :=
  lit "at://did:plc:abc/app.bsky.feed.post/xyz".

Definition sample_response : Response :=
  mkResponse true (lit "200 OK") (Some (lit "image/png"))
    (Throw (mkError (lit "body is not text"))) (Ok sample_image).

(** The account accepts every call; the network answers every fetch with a
    small PNG when [online] and fails otherwise; no page parses. *)
Definition sample_env (online : bool) : Env :=
  {| net_fetch := fun _ _ =>
       if online then Ok sample_response
       else Throw (mkError (lit "fetch failed"));
     atp_login := fun _ _ _ _ => Ok tt;
     atp_uploadBlob := fun _ blob _ => Ok (mkBlobRef (lit "bafkrei") (len blob));
     atp_detectFacets := fun _ _ => Ok None;
     atp_getPost := fun _ _ _ => Ok (mkPostRef sample_uri (lit "bafyrei"));
     atp_like := fun _ _ _ => Ok sample_uri;
     atp_repost := fun _ _ _ => Ok sample_uri;
     atp_post := fun _ _ => Ok sample_uri;
     clock := fun _ => lit "2026-01-01T00:00:00.000Z";
     htmlToText := fun s => s;
     jsdom := fun _ => Throw (mkError (lit "parse error"));
     url_hostname := no_url_parser;
     url_pathname := no_url_parser;
     url_origin := no_url_parser;
     url_resolve := fun _ _ => Throw (mkError (lit "Invalid URL"));
     jpeg_codec := two_byte_codec;
     og_png := fun _ _ _ => Ok sample_image;
     isSameOrigin := fun a b => Ok (startsWith a b);
     getCanonicalUrl := fun u _ => Ok u;
     getRepostPostText := fun _ u => u;
     getBookmarkPostText := fun _ u => u;
     buildPostText := fun p _ => or_empty (content_text p);
     extractHtmlLinks := fun _ => [];
     buildLinkFacets := fun _ _ => [] |}.

(** A URL of 301 characters. *)
Definition sample_long_url : jsstring :=
  lit "https://a.example/" ++ letters 97%N 283.

(** An account with the syndication of external likes turned off. *)
Definition sample_account : Bluesky :=
  new_Bluesky
    (mkOptions (lit "me.bsky.social") (lit "app-password")
       (lit "https://bsky.app/profile") (lit "https://bsky.social")
       None (Some false) None).

Definition sample_me : jsstring := lit "https://me.example".

(** A like of an external page. *)
Definition sample_like : Properties :=
  mkProperties None (lit "https://me.example/p3") None None
    (Some sample_liked_url) None None None.

(** A post that is both a repost and a like of external pages. *)
Definition sample_repost_and_like : Properties :=
  mkProperties None (lit "https://me.example/p4") None None
    (Some sample_liked_url) (Some (lit "https://other.example/reposted"))
    None None.

Definition sample_photo (n : string) : Photo :=
  mkPhoto (Some (lit "https://me.example/media/" ++ lit n))
          (Some (lit "a photo")).

(** A note with five photos. *)
Definition sample_photo_post : Properties :=
  mkProperties None (lit "https://me.example/p5")
    (Some (mkContent None (Some (lit "hello"))))
    (Some [sample_photo "1.png"; sample_photo "2.png"; sample_photo "3.png";
           sample_photo "4.png"; sample_photo "5.png"])
    None None None None.

(** The title of the specification's scenario. *)
Definition sample_long_title : jsstring :=
  lit "A very long title that exceeds thirty five characters easily".

(** The sample world with a parser of paths for URLs on [bsky.app]: the
    path is what follows the sixteen characters of the origin. *)
Definition sample_path_env : Env :=
  let e := sample_env true in
  mkEnv (net_fetch e) (atp_login e) (atp_uploadBlob e) (atp_detectFacets e)
    (atp_getPost e) (atp_like e) (atp_repost e) (atp_post e) (clock e)
    (htmlToText e) (jsdom e) (url_hostname e)
    (fun u => Ok (skipn 16 u))
    (url_origin e) (url_resolve e) (jpeg_codec e) (og_png e)
    (isSameOrigin e) (getCanonicalUrl e) (getRepostPostText e)
    (getBookmarkPostText e) (buildPostText e) (extractHtmlLinks e)
    (buildLinkFacets e).

(** A post on the account itself, and posts that react to it or to an
    external page. *)
Definition sample_own_post : jsstring :=
  lit "https://bsky.app/profile/did:plc:abc/post/xyz".

Definition sample_native_like : Properties :=
  mkProperties None (lit "https://me.example/p8") None None
    (Some sample_own_post) None None None.


Definition sample_external_repost : Properties :=
  mkProperties None (lit "https://me.example/p10") None None
    None (Some (lit "https://other.example/reposted")) None None.


(** An account with the syndication of external reposts turned off. *)
Definition sample_account_no_reposts : Bluesky :=
  new_Bluesky
    (mkOptions (lit "me.bsky.social") (lit "app-password")
       (lit "https://bsky.app/profile") (lit "https://bsky.social")
       None None (Some false)).

(** * Properties of the string primitives *)

Section StringFacts.

Lemma len_app {A} (a b : list A) : len (a ++ b) = len a + len b.
Proof. unfold len. rewrite length_app. lia. Qed.

Lemma len_nonneg {A} (l : list A) : 0 <= len l.
Proof. unfold len. lia. Qed.

Lemma length_trimStart_le (s : jsstring) :
  (length (trimStart s) <= length s)%nat.
Proof.
  induction s as [| c s IH]; simpl; [lia |].
  destruct (is_space c); simpl; lia.
Qed.

Lemma len_trim_le (s : jsstring) : len (trim s) <= len s.
Proof.
  unfold len, trim, trimEnd. rewrite length_rev.
  pose proof (length_trimStart_le (rev (trimStart s))) as H1.
  pose proof (length_trimStart_le s) as H2.
  rewrite length_rev in H1. lia.
Qed.

(** [slice(0, n)] keeps exactly [n] elements when there are that many. *)
Lemma len_slice_prefix {A} (l : list A) (n : Z) :
  0 <= n <= len l -> len (slice l 0 n) = n.
Proof.
  intros Hn. unfold slice, rel_index. simpl (0 <? 0).
  assert (Hlt : (n <? 0) = false) by (apply Z.ltb_ge; lia).
  rewrite Hlt. rewrite Z.min_l by lia. rewrite Z.min_l by apply len_nonneg.
  simpl. unfold len in *. rewrite Z.sub_0_r, length_firstn. lia.
Qed.

(** [slice(0, n)] never keeps more than [n] elements, for [n >= 0]. *)
Lemma len_slice_prefix_le {A} (l : list A) (n : Z) :
  0 <= n -> len (slice l 0 n) <= n.
Proof.
  intros Hn. unfold slice, rel_index. simpl (0 <? 0).
  assert (Hlt : (n <? 0) = false) by (apply Z.ltb_ge; lia).
  rewrite Hlt. rewrite (Z.min_l 0) by apply len_nonneg.
  simpl. unfold len. rewrite length_firstn. lia.
Qed.

Lemma startsWith_length (s pat : jsstring) :
  startsWith s pat = true -> (length pat <= length s)%nat.
Proof.
  revert s. induction pat as [| p pat IH]; intros s H; simpl; [lia |].
  destruct s as [| c s]; simpl in H; [discriminate |].
  apply andb_true_iff in H as [_ H]. apply IH in H. simpl. lia.
Qed.

(** Removing the first occurrence of [pat] removes at most [pat]. *)
Lemma length_replace_first_empty (s pat : jsstring) :
  (length s - length pat <= length (replace_first s pat []))%nat.
Proof.
  induction s as [| c s IH].
  - simpl. destruct (startsWith [] pat); simpl; lia.
  - cbn [replace_first]. destruct (startsWith (c :: s) pat) eqn:E.
    + cbn [app]. rewrite length_skipn. lia.
    + cbn [length]. lia.
Qed.

Lemma strip_prefix_app (p s : jsstring) : strip_prefix p (p ++ s) = Some s.
Proof.
  induction p as [| c p IH]; simpl; [reflexivity |].
  rewrite N.eqb_refl. exact IH.
Qed.

Lemma span_app_stop (p : code_unit -> bool) (x : jsstring) (c : code_unit)
    (rest : jsstring) :
  forallb p x = true -> p c = false -> span p (x ++ c :: rest) = (x, c :: rest).
Proof.
  intros Hx Hc. induction x as [| a x IH]; simpl.
  - rewrite Hc. reflexivity.
  - simpl in Hx. apply andb_true_iff in Hx as [Ha Hx].
    rewrite Ha, (IH Hx). reflexivity.
Qed.

Lemma span_all (p : code_unit -> bool) (x : jsstring) :
  forallb p x = true -> span p x = (x, []).
Proof.
  intros Hx. induction x as [| a x IH]; simpl; [reflexivity |].
  simpl in Hx. apply andb_true_iff in Hx as [Ha Hx].
  rewrite Ha, (IH Hx). reflexivity.
Qed.

Lemma match_first_here {A} (here : jsstring -> option A) (s : jsstring) (m : A) :
  here s = Some m -> match_first here s = Some m.
Proof. intros H. destruct s; simpl; rewrite H; reflexivity. Qed.

Lemma at_last {A} (l : list A) (x : A) : at_ (l ++ [x]) (-1) = Some x.
Proof.
  unfold at_.
  assert (Hlen : len (l ++ [x]) + -1 = len l) by (rewrite len_app; unfold len; simpl; lia).
  rewrite Hlen. change (-1 <? 0) with true. cbv iota.
  assert (Hge : (len l <? 0) = false) by (apply Z.ltb_ge, len_nonneg).
  rewrite Hge. unfold len. rewrite Nat2Z.id.
  rewrite nth_error_app2 by lia. rewrite Nat.sub_diag. reflexivity.
Qed.

(** A text without the separator is one segment. *)
Lemma split_on_from_none (sep : code_unit) (acc seg : jsstring) :
  forallb (fun c => negb (c =? sep)%N) seg = true ->
  split_on_from sep acc seg = [rev acc ++ seg].
Proof.
  revert acc. induction seg as [| c seg IH]; intros acc H; simpl.
  - rewrite app_nil_r. reflexivity.
  - simpl in H. apply andb_true_iff in H as [Hc H].
    apply negb_true_iff in Hc. rewrite Hc, (IH _ H). simpl.
    rewrite <- app_assoc. reflexivity.
Qed.

(** The last segment is what follows the last separator. *)
Lemma split_on_from_last (sep : code_unit) (pre seg acc : jsstring) :
  forallb (fun c => negb (c =? sep)%N) seg = true ->
  exists l, split_on_from sep acc (pre ++ sep :: seg) = l ++ [seg].
Proof.
  intros Hseg. revert acc. induction pre as [| c pre IH]; intros acc.
  - simpl. rewrite N.eqb_refl. exists [rev acc].
    rewrite (split_on_from_none _ [] _ Hseg). reflexivity.
  - simpl. destruct (c =? sep)%N.
    + destruct (IH []) as [l Hl]. exists (rev acc :: l). rewrite Hl. reflexivity.
    + apply IH.
Qed.

End StringFacts.

(** * The composed text (getPostText, getLikePostText) *)

Section ComposedText.

Variable htmlToText : jsstring -> jsstring.

Lemma len_ellipsis : len ellipsis = 3.
Proof. reflexivity. Qed.

(** The shape every truncation of the source has: the cut content, trimmed,
    then the ellipsis, then the reference line. *)
Lemma truncation_length (text suffix : jsstring) :
  len suffix <= 297 -> 297 - len suffix <= len text ->
  let cut := slice text 0 (300 - len suffix - 3) in
  len (trim cut ++ ellipsis ++ suffix) <= 300
  /\ (trim cut = cut -> len (trim cut ++ ellipsis ++ suffix) = 300).
Proof.
  intros Hs Ht cut.
  assert (Hcut : len cut = 300 - len suffix - 3).
  { apply len_slice_prefix. lia. }
  pose proof (len_trim_le cut) as Htrim.
  rewrite !len_app, len_ellipsis. split; [lia |].
  intros Heq. rewrite Heq. lia.
Qed.

Lemma getPostText_truncates (properties : Properties) (includePermalink : bool) :
  len (getPostText_status htmlToText properties) > 300 ->
  getPostText htmlToText properties includePermalink
  = trim (slice (getPostText_status htmlToText properties) 0
            (300 - len (permalink_suffix properties) - 3))
    ++ ellipsis ++ permalink_suffix properties.
Proof.
  intros H. unfold getPostText.
  assert (Hgt : (len (getPostText_status htmlToText properties) >? 300) = true)
    by (apply Z.gtb_lt; lia).
  rewrite Hgt. reflexivity.
Qed.

Lemma getLikePostText_truncates (properties : Properties) (likedUrl : jsstring) :
  len (getLikePostText_status htmlToText properties likedUrl) > 300 ->
  getLikePostText htmlToText properties likedUrl
  = trim (slice (replace_first
                   (getLikePostText_status htmlToText properties likedUrl)
                   (like_suffix likedUrl) [])
            0 (300 - len (like_suffix likedUrl) - 3))
    ++ ellipsis ++ like_suffix likedUrl.
Proof.
  intros H. unfold getLikePostText.
  assert (Hgt : (len (getLikePostText_status htmlToText properties likedUrl)
                 >? 300) = true) by (apply Z.gtb_lt; lia).
  rewrite Hgt. reflexivity.
Qed.

(** A long comment makes the text of a like long, marker line or not. *)
Lemma like_status_at_least_content (properties : Properties) (likedUrl : jsstring) :
  len (getLikePostText_content htmlToText properties) > 300 ->
  len (getLikePostText_status htmlToText properties likedUrl) > 300.
Proof.
  intros H. unfold getLikePostText_status.
  destruct (getLikePostText_content htmlToText properties) as [| c t] eqn:E.
  - unfold len in H. simpl in H. lia.
  - cbn [truthy]. destruct (negb (includes (c :: t) likedUrl)).
    + rewrite len_app. pose proof (len_nonneg ([newline; newline] ++ heart ++ space ++ likedUrl)). lia.
    + exact H.
Qed.

(** C1, as the code has it.  When the text before truncation is longer than
    300 code units and the reference line (two newlines and the permalink,
    or two newlines, the heart and the liked URL) is at most 297 code units
    long, the composed text is the cut content, trimmed, followed by the
    three-character ellipsis and the reference line; it is at most 300 code
    units long, and exactly 300 when trimming removes nothing from the cut.
    A comment of more than 300 code units always makes the text of a like
    longer than 300. *)
Theorem truncated_text_keeps_reference
    (properties : Properties) (includePermalink : bool) (likedUrl : jsstring) :
  (len (getPostText_status htmlToText properties) > 300 ->
   len (permalink_suffix properties) <= 297 ->
   exists cut,
     cut = slice (getPostText_status htmlToText properties) 0
             (300 - len (permalink_suffix properties) - 3)
     /\ getPostText htmlToText properties includePermalink
        = trim cut ++ ellipsis ++ permalink_suffix properties
     /\ len (getPostText htmlToText properties includePermalink) <= 300
     /\ (trim cut = cut ->
         len (getPostText htmlToText properties includePermalink) = 300))
  /\
  (len (getLikePostText_status htmlToText properties likedUrl) > 300 ->
   len (like_suffix likedUrl) <= 297 ->
   exists cut,
     cut = slice (replace_first
                    (getLikePostText_status htmlToText properties likedUrl)
                    (like_suffix likedUrl) [])
             0 (300 - len (like_suffix likedUrl) - 3)
     /\ getLikePostText htmlToText properties likedUrl
        = trim cut ++ ellipsis ++ like_suffix likedUrl
     /\ len (getLikePostText htmlToText properties likedUrl) <= 300
     /\ (trim cut = cut ->
         len (getLikePostText htmlToText properties likedUrl) = 300))
  /\
  (len (getLikePostText_content htmlToText properties) > 300 ->
   len (getLikePostText_status htmlToText properties likedUrl) > 300).
Proof.
  split; [| split].
  - intros Hlong Hsuffix. eexists. split; [reflexivity |].
    rewrite (getPostText_truncates _ _ Hlong). split; [reflexivity |].
    pose proof (len_nonneg (permalink_suffix properties)).
    apply truncation_length; lia.
  - intros Hlong Hsuffix. eexists. split; [reflexivity |].
    rewrite (getLikePostText_truncates _ _ Hlong). split; [reflexivity |].
    apply truncation_length; [lia |].
    pose proof (length_replace_first_empty
                  (getLikePostText_status htmlToText properties likedUrl)
                  (like_suffix likedUrl)) as Hrep.
    unfold len in *. lia.
  - apply like_status_at_least_content.
Qed.

End ComposedText.

(** The theorem at a note of 301 letters and a liked URL: both texts are
    exactly 300 code units long. *)
Lemma truncated_text_keeps_reference_witness :
  len (getPostText (fun s => s) sample_long_note false) = 300
  /\ len (getLikePostText (fun s => s) sample_long_note sample_liked_url) = 300.
Proof.
  destruct (truncated_text_keeps_reference (fun s => s) sample_long_note false
              sample_liked_url) as [Hpost [Hlike Hcontent]].
  split.
  - destruct Hpost as [cut [Hcut [_ [_ Hexact]]]].
    + vm_compute. reflexivity.
    + vm_compute. discriminate.
    + apply Hexact. subst cut. vm_compute. reflexivity.
  - destruct Hlike as [cut [Hcut [_ [_ Hexact]]]].
    + apply Hcontent. vm_compute. reflexivity.
    + vm_compute. discriminate.
    + apply Hexact. subst cut. vm_compute. reflexivity.
Defined.

(** C1 as stated fails: a note of 301 characters whose cut falls after a
    space is composed into 299 code units, not 300. *)
Lemma truncated_text_not_always_300 :
  len (getPostText_status (fun s => s) sample_spaced_note) = 301
  /\ len (getPostText (fun s => s) sample_spaced_note false) = 299.
Proof. vm_compute. split; reflexivity. Qed.

(** * Post URLs (uriToPostUrl) *)

Section PostUrl.

(** [AT_URI] matches a well-formed AT URI at its first character. *)
Lemma AT_URI_here_wellformed (id type rkey : jsstring) :
  id <> [] -> forallb not_slash id = true ->
  type <> [] -> forallb not_slash type = true ->
  rkey <> [] -> forallb not_slash rkey = true ->
  AT_URI_here (lit "at://" ++ lit "did:" ++ id ++ slash ++ type ++ slash ++ rkey)
  = Some (lit "did:" ++ id, type, rkey).
Proof.
  intros Hid Fid Htype Ftype Hrkey Frkey.
  unfold AT_URI_here. rewrite !strip_prefix_app.
  change (slash ++ type ++ slash ++ rkey) with (47%N :: type ++ slash ++ rkey).
  rewrite (span_app_stop not_slash id 47%N _ Fid eq_refl).
  destruct id as [| i0 id]; [congruence |].
  change (slash ++ rkey) with (47%N :: rkey).
  rewrite (span_app_stop not_slash type 47%N _ Ftype eq_refl).
  destruct type as [| t0 type]; [congruence |].
  rewrite (span_all not_slash rkey Frkey).
  destruct rkey as [| r0 rkey]; [congruence |].
  reflexivity.
Qed.

(** [type.split(".").at(-1)] is what follows the last dot of [type]. *)
Lemma last_segment_of_type (type seg : jsstring) :
  forallb not_dot seg = true ->
  type = seg \/ (exists pre, type = pre ++ 46%N :: seg) ->
  at_ (split_on 46%N type) (-1) = Some seg.
Proof.
  intros Hseg [-> | [pre ->]]; unfold split_on.
  - rewrite (@split_on_from_none 46%N [] seg Hseg). apply (at_last []).
  - destruct (@split_on_from_last 46%N pre seg [] Hseg) as [l Hl].
    exact (eq_trans (f_equal (fun x => at_ x (-1)) Hl) (at_last l seg)).
Qed.

(** C6.  For an AT URI [at://did:<id>/<type>/<rkey>] whose three parts are
    not empty and hold no slash, [uriToPostUrl] returns
    [<profileUrl>/did:<id>/<seg>/<rkey>], where [seg] is the part of [type]
    after its last dot (all of [type] when it has no dot).  In particular
    the URI [at://did:plc:abc/app.bsky.feed.post/xyz] gives
    [<profileUrl>/did:plc:abc/post/xyz], for every profile URL. *)
Theorem uriToPostUrl_at_uri (profileUrl id type seg rkey : jsstring) :
  id <> [] -> forallb not_slash id = true ->
  type <> [] -> forallb not_slash type = true ->
  rkey <> [] -> forallb not_slash rkey = true ->
  forallb not_dot seg = true ->
  type = seg \/ (exists pre, type = pre ++ 46%N :: seg) ->
  uriToPostUrl profileUrl
    (lit "at://" ++ lit "did:" ++ id ++ slash ++ type ++ slash ++ rkey)
  = Some (profileUrl ++ slash ++ (lit "did:" ++ id) ++ slash ++ seg
          ++ slash ++ rkey)
  /\ (forall base,
        uriToPostUrl base (lit "at://did:plc:abc/app.bsky.feed.post/xyz")
        = Some (base ++ lit "/did:plc:abc/post/xyz")).
Proof.
  intros Hid Fid Htype Ftype Hrkey Frkey Fseg Hseg. split.
  - unfold uriToPostUrl.
    rewrite (match_first_here AT_URI_here _
               (AT_URI_here_wellformed Hid Fid Htype Ftype Hrkey Frkey)).
    rewrite (last_segment_of_type Fseg Hseg). reflexivity.
  - intros base. reflexivity.
Qed.

End PostUrl.

(** The theorem at the URI of the specification, with the default profile
    URL. *)
Lemma uriToPostUrl_at_uri_witness :
  uriToPostUrl (lit "https://bsky.app/profile")
    (lit "at://did:plc:abc/app.bsky.feed.post/xyz")
  = Some (lit "https://bsky.app/profile/did:plc:abc/post/xyz").
Proof.
  refine (proj1 (uriToPostUrl_at_uri (lit "https://bsky.app/profile")
                   (id := lit "plc:abc") (type := lit "app.bsky.feed.post")
                   (seg := lit "post") (rkey := lit "xyz") _ _ _ _ _ _ _ _)).
  - discriminate.
  - reflexivity.
  - discriminate.
  - reflexivity.
  - discriminate.
  - reflexivity.
  - reflexivity.
  - right. exists (lit "app.bsky.feed"). reflexivity.
Defined.

(** * The thumbnail title (wrapText) *)

Section WrapTextFacts.

Variables maxCharsPerLine maxLines : Z.

Lemma wrapText_loop_lines (words lines : list jsstring) (currentLine : jsstring) :
  len lines <= maxLines ->
  len (fst (wrapText_loop maxCharsPerLine maxLines words lines currentLine))
  <= maxLines.
Proof.
  revert lines currentLine.
  induction words as [| word rest IH]; intros lines currentLine Hlines;
    cbn [wrapText_loop]; [exact Hlines |].
  destruct (Z.geb_spec (len lines) maxLines) as [Hfull | Hroom];
    [exact Hlines |].
  assert (Hpush : forall line, len (lines ++ [line]) <= maxLines).
  { intros line. rewrite len_app. unfold len at 2. simpl. lia. }
  destruct (len _ <=? maxCharsPerLine); [apply IH, Hlines |].
  destruct (truthy currentLine); apply IH, Hpush.
Qed.

Lemma length_set_nth (l : list jsstring) (i : nat) (v : jsstring) :
  length (set_nth l i v) = length l.
Proof.
  revert i. induction l as [| x l IH]; intros i; [reflexivity |].
  destruct i; simpl; [reflexivity | rewrite IH; reflexivity].
Qed.

(** The part of C8 that holds: never more than [maxLines] lines. *)
Lemma wrapText_at_most_maxLines (text : jsstring) (lines : list jsstring) :
  0 <= maxLines ->
  wrapText text maxCharsPerLine maxLines = Ok lines ->
  len lines <= maxLines.
Proof.
  intros Hmax. unfold wrapText.
  pose proof (wrapText_loop_lines (split_spaces text) [] []) as Hloop.
  destruct (wrapText_loop maxCharsPerLine maxLines (split_spaces text) [] [])
    as [lines0 currentLine].
  cbn [fst] in Hloop. specialize (Hloop Hmax).
  set (lines1 := if truthy currentLine && (len lines0 <? maxLines)
                 then lines0 ++ [currentLine] else lines0).
  assert (H1 : len lines1 <= maxLines).
  { subst lines1. destruct (truthy currentLine); cbn [andb]; [| exact Hloop].
    destruct (Z.ltb_spec (len lines0) maxLines); [| exact Hloop].
    rewrite len_app. unfold len at 2. simpl. lia. }
  assert (Hset : forall i v, len (set_nth lines1 i v) <= maxLines).
  { intros i v. unfold len. rewrite length_set_nth. exact H1. }
  destruct ((len lines1 =? maxLines) && _).
  - destruct (index lines1 (maxLines - 1)) as [lastLine |]; [| discriminate].
    destruct (len lastLine >? maxCharsPerLine - 3).
    + intros H. injection H as <-. apply Hset.
    + destruct (negb (endsWith lastLine ellipsis)); intros H;
        injection H as <-; [apply Hset | exact H1].
  - intros H. injection H as <-. exact H1.
Qed.

End WrapTextFacts.

(** C8 at a failing input.  The loop truncates a word that is too long only
    when the current line is empty (line 60); a long word that follows a
    short one becomes the current line as it is (line 57).  The title
    [a xxx...x] with 36 letters [x] is wrapped into the two lines [a] and
    the 36 letters, the second longer than 35 characters and without
    ellipsis. *)
Theorem wrapText_long_word_overflows :
  wrapText sample_title 35 4 = Ok [lit "a"; letters 120%N 36]
  /\ len (letters 120%N 36) = 36
  /\ endsWith (letters 120%N 36) ellipsis = false.
Proof. vm_compute. repeat split. Qed.

(** * The external URL (getExternalUrl) *)

Section ExternalUrlFacts.

Variable url_hostname : jsstring -> result jsstring.

(** C2, as the code has it.  Among the markers, [getExternalUrl] returns
    [like-of] when it is present; otherwise [bookmark-of] when it is
    present; otherwise [in-reply-to] when it is present. *)
Theorem getExternalUrl_marker_priority
    (properties : Properties) (ownDomain : option jsstring) :
  (truthy_opt (like_of properties) = true ->
   getExternalUrl url_hostname properties ownDomain = like_of properties)
  /\
  (truthy_opt (like_of properties) = false ->
   truthy_opt (bookmark_of properties) = true ->
   getExternalUrl url_hostname properties ownDomain = bookmark_of properties)
  /\
  (truthy_opt (like_of properties) = false ->
   truthy_opt (bookmark_of properties) = false ->
   truthy_opt (in_reply_to properties) = true ->
   getExternalUrl url_hostname properties ownDomain = in_reply_to properties).
Proof.
  unfold getExternalUrl. repeat split.
  - intros ->. reflexivity.
  - intros -> ->. reflexivity.
  - intros -> -> ->. reflexivity.
Qed.

End ExternalUrlFacts.

(** The theorem at a like that is also a bookmark, at a bookmark that is
    also a reply, and at a reply. *)
Lemma getExternalUrl_marker_priority_witness :
  getExternalUrl no_url_parser sample_bookmark_and_like None
  = Some (lit "https://liked.example/a")
  /\ getExternalUrl no_url_parser sample_bookmark_and_reply None
     = Some (lit "https://bookmarked.example/b")
  /\ getExternalUrl no_url_parser sample_reply None
     = Some (lit "https://replied.example/c").
Proof.
  split; [| split].
  - apply (proj1 (getExternalUrl_marker_priority no_url_parser
                    sample_bookmark_and_like None)).
    reflexivity.
  - apply (proj1 (proj2 (getExternalUrl_marker_priority no_url_parser
                           sample_bookmark_and_reply None)));
      reflexivity.
  - apply (proj2 (proj2 (getExternalUrl_marker_priority no_url_parser
                           sample_reply None)));
      reflexivity.
Defined.

(** C2 as stated fails: with both [bookmark-of] and [like-of] present the
    selected URL is not the bookmarked one. *)
Lemma getExternalUrl_prefers_like_to_bookmark :
  truthy_opt (bookmark_of sample_bookmark_and_like) = true
  /\ truthy_opt (like_of sample_bookmark_and_like) = true
  /\ getExternalUrl no_url_parser sample_bookmark_and_like None
     <> bookmark_of sample_bookmark_and_like.
Proof. repeat split. vm_compute. discriminate. Qed.

(** * Image compression (constrainImage, getPostImage) *)

Section ImageFacts.

Variable jpeg_codec : Buffer -> Z -> result Buffer.

(** One call of [constrainImage], as the source reads. *)
Lemma constrainImage_step (buffer : Buffer) (maxBytes quality : Z) :
  constrainImage jpeg_codec buffer maxBytes quality
  = match sharp_jpeg jpeg_codec buffer quality with
    | Throw e => Throw e
    | Ok compressed =>
        if len compressed >? maxBytes
        then constrainImage jpeg_codec buffer maxBytes (quality - 5)
        else Ok compressed
    end.
Proof.
  funelim (constrainImage jpeg_codec buffer maxBytes quality).
  - match goal with H : sharp_jpeg _ _ _ = Throw _ |- _ => rewrite H end.
    reflexivity.
  - match goal with H : sharp_jpeg _ _ _ = Ok _ |- _ => rewrite H end.
    match goal with H : (len _ >? _) = true |- _ => rewrite H end.
    reflexivity.
  - match goal with H : sharp_jpeg _ _ _ = Ok _ |- _ => rewrite H end.
    match goal with H : (len _ >? _) = false |- _ => rewrite H end.
    reflexivity.
Qed.

(** A run that ends within its fuel ends with the result of the function. *)
Lemma constrainImage_within_sound (fuel : nat) (buffer : Buffer)
    (maxBytes quality : Z) (r : result Buffer) :
  constrainImage_within jpeg_codec fuel buffer maxBytes quality = Some r ->
  constrainImage jpeg_codec buffer maxBytes quality = r.
Proof.
  revert quality. induction fuel as [| fuel IH]; intros quality H.
  - discriminate.
  - rewrite constrainImage_step. simpl in H.
    destruct (sharp_jpeg jpeg_codec buffer quality) as [compressed | e].
    + destruct (len compressed >? maxBytes).
      * apply IH. exact H.
      * congruence.
    + congruence.
Qed.

(** From a quality of at most [5 * n], sharp accepts at most [n] encodings
    and refuses the next call. *)
Lemma constrainImage_within_enough (n : nat) (buffer : Buffer)
    (maxBytes quality : Z) :
  quality <= 5 * Z.of_nat n ->
  constrainImage_within jpeg_codec (S n) buffer maxBytes quality <> None.
Proof.
  revert quality. induction n as [| n IH]; intros quality Hq;
    cbn [constrainImage_within]; unfold sharp_jpeg;
    destruct (1 <=? quality) eqn:Hlow; cbn [andb]; try discriminate.
  - apply Z.leb_le in Hlow. lia.
  - destruct (quality <=? 100); [| discriminate].
    destruct (jpeg_codec buffer quality) as [compressed | e];
      [| discriminate].
    destruct (len compressed >? maxBytes); [| discriminate].
    apply IH. lia.
Qed.

(** What a run can return: an encoding that fits, made at a quality of the
    ladder that sharp accepts. *)
Lemma constrainImage_within_fits (fuel : nat) (buffer : Buffer)
    (maxBytes quality : Z) (compressed : Buffer) :
  constrainImage_within jpeg_codec fuel buffer maxBytes quality
  = Some (Ok compressed) ->
  len compressed <= maxBytes
  /\ exists k, 0 <= k < Z.of_nat fuel /\ 1 <= quality - 5 * k
               /\ jpeg_codec buffer (quality - 5 * k) = Ok compressed.
Proof.
  revert quality. induction fuel as [| fuel IH]; intros quality H.
  - discriminate.
  - cbn [constrainImage_within] in H. unfold sharp_jpeg in H.
    destruct (1 <=? quality) eqn:Hlow; cbn [andb] in H; [| discriminate].
    apply Z.leb_le in Hlow.
    destruct (quality <=? 100); [| discriminate].
    destruct (jpeg_codec buffer quality) as [c | e] eqn:Hc; [| discriminate].
    destruct (len c >? maxBytes) eqn:Hbig.
    + destruct (IH _ H) as [Hfit [k [Hk [Hq Hk']]]]. split; [exact Hfit |].
      exists (k + 1).
      replace (quality - 5 * (k + 1)) with (quality - 5 - 5 * k) by lia.
      repeat split; try lia. exact Hk'.
    + injection H as <-. split.
      * destruct (Z.gtb_spec (len c) maxBytes); [discriminate | lia].
      * exists 0. replace (quality - 5 * 0) with quality by lia.
        repeat split; try lia. exact Hc.
Qed.

(** When every encoding of the ladder is too big, the run ends with the
    refusal of sharp. *)
Lemma constrainImage_within_all_too_big (n : nat) (buffer : Buffer)
    (maxBytes quality : Z) :
  quality <= 100 -> quality <= 5 * Z.of_nat n ->
  (forall k, 0 <= k -> 1 <= quality - 5 * k ->
     exists c, jpeg_codec buffer (quality - 5 * k) = Ok c
               /\ len c > maxBytes) ->
  constrainImage_within jpeg_codec (S n) buffer maxBytes quality
  = Some (Throw invalid_quality).
Proof.
  revert quality. induction n as [| n IH]; intros quality Hmax Hq Hall;
    cbn [constrainImage_within]; unfold sharp_jpeg;
    destruct (1 <=? quality) eqn:Hlow; cbn [andb]; try reflexivity.
  - apply Z.leb_le in Hlow. lia.
  - apply Z.leb_le in Hlow.
    assert (Hhigh : (quality <=? 100) = true) by (apply Z.leb_le; lia).
    rewrite Hhigh.
    destruct (Hall 0) as [c [Hc Hbig]]; try lia.
    replace (quality - 5 * 0) with quality in Hc by lia. rewrite Hc.
    assert (Hgt : (len c >? maxBytes) = true) by (apply Z.gtb_lt; lia).
    rewrite Hgt. apply IH; try lia.
    intros k Hk Hk1.
    replace (quality - 5 - 5 * k) with (quality - 5 * (k + 1)) by lia.
    apply Hall; lia.
Qed.

(** C3, as the code has it.  From quality 90, [constrainImage] ends within
    19 calls of the encoder: qualities 90, 85, ..., 5 are encoded, and the
    call at quality 0 is refused by sharp.  A buffer it returns is at most
    [maxBytes] long and is the encoding at one of the 18 qualities.  When
    the encodings at all 18 qualities are longer than [maxBytes], the call
    fails with the refusal of sharp instead of returning. *)
Theorem constrainImage_terminates_and_fits (buffer : Buffer) (maxBytes : Z) :
  constrainImage_within jpeg_codec 19 buffer maxBytes 90
  = Some (constrainImage jpeg_codec buffer maxBytes 90)
  /\ (forall compressed,
        constrainImage jpeg_codec buffer maxBytes 90 = Ok compressed ->
        len compressed <= maxBytes
        /\ exists k, 0 <= k < 18
                     /\ jpeg_codec buffer (90 - 5 * k) = Ok compressed)
  /\ ((forall k, 0 <= k < 18 ->
         exists c, jpeg_codec buffer (90 - 5 * k) = Ok c /\ len c > maxBytes) ->
      constrainImage jpeg_codec buffer maxBytes 90 = Throw invalid_quality).
Proof.
  assert (Hends : constrainImage_within jpeg_codec 19 buffer maxBytes 90
                  = Some (constrainImage jpeg_codec buffer maxBytes 90)).
  { destruct (constrainImage_within jpeg_codec 19 buffer maxBytes 90)
      as [r |] eqn:Hrun.
    - rewrite (constrainImage_within_sound _ _ _ _ Hrun). reflexivity.
    - exfalso. revert Hrun.
      apply (constrainImage_within_enough 18 buffer maxBytes). lia. }
  split; [exact Hends | split].
  - intros compressed Hret. rewrite Hret in Hends.
    destruct (constrainImage_within_fits _ _ _ _ Hends)
      as [Hfit [k [Hk [Hq Hc]]]].
    split; [exact Hfit |]. exists k. split; [| exact Hc].
    change (Z.of_nat 19) with 19 in Hk. lia.
  - intros Hall. apply (constrainImage_within_sound 19).
    apply (constrainImage_within_all_too_big 18); try lia.
    intros k Hk Hk1. apply Hall. lia.
Qed.

(** C10.  A buffer shorter than 1048576 bytes is returned as it is, with
    its MIME type.  A buffer of 1048576 bytes or more is handed to
    [constrainImage] with that budget and quality 90, and what is returned
    then is the compressed buffer with the MIME type [image/jpeg]; a buffer
    of exactly 1048576 bytes is among those. *)
Theorem getPostImage_threshold (buf : Buffer) (mime : jsstring) :
  (len buf < 1048576 ->
   getPostImage jpeg_codec buf mime = Ok (mkImageAsset buf mime))
  /\
  (len buf >= 1048576 ->
   getPostImage jpeg_codec buf mime
   = match constrainImage jpeg_codec buf 1048576 90 with
     | Ok compressed => Ok (mkImageAsset compressed (lit "image/jpeg"))
     | Throw e => Throw e
     end
   /\ (forall asset,
         getPostImage jpeg_codec buf mime = Ok asset ->
         mimeType asset = lit "image/jpeg"
         /\ constrainImage jpeg_codec buf 1048576 90 = Ok (buffer asset))).
Proof.
  unfold getPostImage. change MAX_SIZE with 1048576. split.
  - intros Hsmall.
    assert (Hlt : (len buf <? 1048576) = true) by (apply Z.ltb_lt; lia).
    rewrite Hlt. reflexivity.
  - intros Hbig.
    assert (Hlt : (len buf <? 1048576) = false) by (apply Z.ltb_ge; lia).
    rewrite Hlt. split; [reflexivity |].
    intros asset Hret.
    destruct (constrainImage jpeg_codec buf 1048576 90) as [c | e];
      [| discriminate].
    injection Hret as <-. split; reflexivity.
Qed.

End ImageFacts.

(** The theorem at the two-byte encoder.  With a budget of two bytes the
    first encoding is returned; with a budget of one byte every encoding is
    too big and the call fails. *)
Lemma constrainImage_terminates_and_fits_witness :
  (len [Byte.xff; Byte.xd8] <= 2
   /\ exists k, 0 <= k < 18
        /\ two_byte_codec sample_image (90 - 5 * k) = Ok [Byte.xff; Byte.xd8])
  /\ constrainImage two_byte_codec sample_image 1 90 = Throw invalid_quality.
Proof.
  split.
  - destruct (constrainImage_terminates_and_fits two_byte_codec sample_image 2)
      as [_ [Hfits _]].
    assert (Hrun : constrainImage_within two_byte_codec 19 sample_image 2 90
                   = Some (Ok [Byte.xff; Byte.xd8]))
      by (vm_compute; reflexivity).
    apply Hfits. apply (constrainImage_within_sound two_byte_codec 19).
    exact Hrun.
  - destruct (constrainImage_terminates_and_fits two_byte_codec sample_image 1)
      as [_ [_ Hfails]].
    apply Hfails. intros k Hk. exists [Byte.xff; Byte.xd8].
    split; [reflexivity | vm_compute; reflexivity].
Defined.

(** C3 as stated fails: the budget of one byte is positive, every encoding
    succeeds, and [constrainImage] raises the error of sharp instead of
    returning a buffer. *)
Lemma constrainImage_can_fail :
  0 < 1
  /\ (forall quality, 1 <= quality <= 100 ->
        exists c, sharp_jpeg two_byte_codec sample_image quality = Ok c)
  /\ constrainImage two_byte_codec sample_image 1 90 = Throw invalid_quality.
Proof.
  split; [lia | split].
  - intros quality [Hlow Hhigh]. exists [Byte.xff; Byte.xd8].
    unfold sharp_jpeg.
    apply Z.leb_le in Hlow. apply Z.leb_le in Hhigh.
    rewrite Hlow, Hhigh. reflexivity.
  - apply (constrainImage_within_sound two_byte_codec 19). vm_compute.
    reflexivity.
Qed.

Lemma len_sample_mebibyte : len sample_mebibyte = 1048576.
Proof.
  unfold len, sample_mebibyte. rewrite repeat_length.
  rewrite Z2Nat.id; [reflexivity | discriminate].
Defined.

(** The theorem at a four-byte buffer, returned as it is, and at a buffer
    of exactly 1 MiB, re-encoded as JPEG. *)
Lemma getPostImage_threshold_witness :
  getPostImage two_byte_codec sample_image (lit "image/png")
  = Ok (mkImageAsset sample_image (lit "image/png"))
  /\ getPostImage two_byte_codec sample_mebibyte (lit "image/png")
     = match constrainImage two_byte_codec sample_mebibyte 1048576 90 with
       | Ok compressed => Ok (mkImageAsset compressed (lit "image/jpeg"))
       | Throw e => Throw e
       end.
Proof.
  split.
  - apply (proj1 (getPostImage_threshold two_byte_codec sample_image
                    (lit "image/png"))).
    vm_compute. reflexivity.
  - apply (proj2 (getPostImage_threshold two_byte_codec sample_mebibyte
                    (lit "image/png"))).
    rewrite len_sample_mebibyte. discriminate.
Defined.

(** * Page metadata (fetchOpenGraphData) *)

Section MetadataFacts.

Variable env : Env.

(** The [catch] block turns every exception of the [try] block into the
    fallback. *)
Lemma fetchOpenGraphData_catches (url : jsstring) (tr tr' : Trace) (e : Error) :
  fetchOpenGraphData_try env url tr = (Throw e, tr') ->
  fst (fetchOpenGraphData env url tr) = Ok (mkMetadata url [] None).
Proof.
  intros H. unfold fetchOpenGraphData, try_catch. rewrite H. reflexivity.
Qed.

(** C4.  [fetchOpenGraphData] always returns a value.  When the [try] block
    throws - the fetch fails (network error, timeout), the body cannot be
    read, the page cannot be parsed - and when the response is not a
    success, the value is [{title: url, description: empty, imageUrl: null}]. *)
Theorem fetchOpenGraphData_never_throws (url : jsstring) (tr : Trace) :
  (exists metadata tr', fetchOpenGraphData env url tr = (Ok metadata, tr'))
  /\ (forall e tr',
        fetchOpenGraphData_try env url tr = (Throw e, tr') ->
        fst (fetchOpenGraphData env url tr) = Ok (mkMetadata url [] None))
  /\ (forall e,
        net_fetch env tr url = Throw e ->
        fst (fetchOpenGraphData env url tr) = Ok (mkMetadata url [] None))
  /\ (forall response,
        net_fetch env tr url = Ok response -> ok response = false ->
        fst (fetchOpenGraphData env url tr) = Ok (mkMetadata url [] None))
  /\ (forall response e,
        net_fetch env tr url = Ok response -> ok response = true ->
        body_text response = Throw e
        \/ (exists page, body_text response = Ok page
                         /\ jsdom env page = Throw e) ->
        fst (fetchOpenGraphData env url tr) = Ok (mkMetadata url [] None)).
Proof.
  split; [| split; [| split; [| split]]].
  - unfold fetchOpenGraphData, try_catch.
    destruct (fetchOpenGraphData_try env url tr) as [[metadata | e] tr'].
    + exists metadata, tr'. reflexivity.
    + unfold bind, console_error, call, ret. eexists. eexists. reflexivity.
  - intros e tr'. apply fetchOpenGraphData_catches.
  - intros e Hfetch.
    apply (fetchOpenGraphData_catches url tr (tr' := EvFetch url :: tr) (e := e)).
    unfold fetchOpenGraphData_try, bind, fetch, call. rewrite Hfetch.
    reflexivity.
  - intros response Hfetch Hok.
    unfold fetchOpenGraphData, try_catch, fetchOpenGraphData_try, bind, fetch,
      call.
    rewrite Hfetch, Hok. reflexivity.
  - intros response e Hfetch Hok Hparse.
    apply (fetchOpenGraphData_catches url tr (tr' := EvFetch url :: tr) (e := e)).
    unfold fetchOpenGraphData_try, bind, fetch, call, lift.
    rewrite Hfetch, Hok. cbn [negb].
    destruct Hparse as [Hbody | [page [Hbody Hdom]]]; rewrite Hbody.
    + reflexivity.
    + rewrite Hdom. reflexivity.
Qed.

(** On the path that reads the page (lines 321-354) the title and the
    description are cut to 300 and 1000 code units. *)
Lemma fetchOpenGraphData_page_capped (url : jsstring) (tr tr' : Trace)
    (response : Response) (metadata : Metadata) :
  net_fetch env tr url = Ok response -> ok response = true ->
  fetchOpenGraphData_try env url tr = (Ok metadata, tr') ->
  len (title metadata) <= 300 /\ len (description metadata) <= 1000.
Proof.
  intros Hfetch Hok.
  unfold fetchOpenGraphData_try, bind, fetch, call, lift, ret.
  rewrite Hfetch, Hok. cbn [negb].
  destruct (body_text response) as [page | e]; [| discriminate].
  destruct (jsdom env page) as [doc | e]; [| discriminate].
  destruct (truthy_opt (if truthy_opt (og_image doc) then og_image doc else None)
            && negb (startsWith
                       (or_empty (if truthy_opt (og_image doc)
                                  then og_image doc else None))
                       (lit "http"))).
  - destruct (url_origin env url) as [origin | e]; [| discriminate].
    destruct (url_resolve env _ origin) as [href | e]; [| discriminate].
    intros H. injection H as <- _. cbn [title description].
    split; apply len_slice_prefix_le; lia.
  - intros H. injection H as <- _. cbn [title description].
    split; apply len_slice_prefix_le; lia.
Qed.

End MetadataFacts.

(** The theorem in the sample world: off line the fetch fails, on line the
    body cannot be read as text, and both give the fallback. *)
Lemma fetchOpenGraphData_never_throws_witness :
  fst (fetchOpenGraphData (sample_env false) sample_liked_url [])
  = Ok (mkMetadata sample_liked_url [] None)
  /\ fst (fetchOpenGraphData (sample_env true) sample_liked_url [])
     = Ok (mkMetadata sample_liked_url [] None).
Proof.
  split.
  - destruct (fetchOpenGraphData_never_throws (sample_env false)
                sample_liked_url []) as [_ [_ [Hnet _]]].
    apply (Hnet (mkError (lit "fetch failed"))). reflexivity.
  - destruct (fetchOpenGraphData_never_throws (sample_env true)
                sample_liked_url []) as [_ [_ [_ [_ Hparse]]]].
    apply (Hparse sample_response (mkError (lit "body is not text")));
      [reflexivity | reflexivity | left; reflexivity].
Defined.

(** C5 at a failing input.  The title is cut to 300 code units only on the
    path that reads the page (line 351).  For a URL of 301 code units whose
    fetch fails, the title returned is the URL itself, 301 code units long. *)
Theorem fetchOpenGraphData_fallback_title_uncapped :
  fst (fetchOpenGraphData (sample_env false) sample_long_url [])
  = Ok (mkMetadata sample_long_url [] None)
  /\ len (title (mkMetadata sample_long_url [] None)) = 301.
Proof. split; vm_compute; reflexivity. Qed.

(** * What a run does to the account *)

Section TraceFacts.

Lemma extends_refl (P : Event -> Prop) (tr : Trace) : extends_with P tr tr.
Proof. exists []. split; [reflexivity | constructor]. Qed.

Lemma extends_trans (P : Event -> Prop) (t1 t2 t3 : Trace) :
  extends_with P t1 t2 -> extends_with P t2 t3 -> extends_with P t1 t3.
Proof.
  intros [e1 [-> F1]] [e2 [-> F2]]. exists (e2 ++ e1).
  split; [apply app_assoc | apply Forall_app; split; assumption].
Qed.

Lemma extends_one (P : Event -> Prop) (e : Event) (tr : Trace) :
  P e -> extends_with P tr (e :: tr).
Proof.
  intros He. exists [e]. split; [reflexivity | repeat constructor; exact He].
Qed.

Lemma extends_weaken (P Q : Event -> Prop) (tr tr' : Trace) :
  (forall e, P e -> Q e) -> extends_with P tr tr' -> extends_with Q tr tr'.
Proof.
  intros HPQ [evs [-> F]]. exists evs. split; [reflexivity |].
  eapply Forall_impl; [exact HPQ | exact F].
Qed.

Variable P : Event -> Prop.

Lemma spec_ret {A} (R : A -> Prop) (a : A) : R a -> run_spec P R (ret a).
Proof.
  intros Ha tr. split; [apply extends_refl |].
  simpl. intros b Hb. injection Hb as <-. exact Ha.
Qed.

Lemma spec_throw {A} (R : A -> Prop) (e : Error) : run_spec P R (throw e).
Proof. intros tr. split; [apply extends_refl | discriminate]. Qed.

Lemma spec_lift {A} (r : result A) : run_spec P any (lift r).
Proof. intros tr. split; [apply extends_refl | intros; exact I]. Qed.

Lemma spec_call {A} (answer : Trace -> result A) (e : Event) :
  P e -> run_spec P any (call answer e).
Proof. intros He tr. split; [apply extends_one, He | intros; exact I]. Qed.

Lemma spec_bind {A B} (R1 : A -> Prop) (R2 : B -> Prop) (m : M A)
    (f : A -> M B) :
  run_spec P R1 m -> (forall a, R1 a -> run_spec P R2 (f a)) ->
  run_spec P R2 (bind m f).
Proof.
  intros Hm Hf tr. unfold bind. destruct (Hm tr) as [Hext Hval].
  destruct (m tr) as [[a | e] tr1]; simpl in *.
  - destruct (Hf a (Hval a eq_refl) tr1) as [Hext' Hval'].
    split; [eapply extends_trans; eassumption | exact Hval'].
  - split; [exact Hext | discriminate].
Qed.

Lemma spec_try_catch {A} (R : A -> Prop) (m : M A) (h : Error -> M A) :
  run_spec P R m -> (forall e, run_spec P R (h e)) ->
  run_spec P R (try_catch m h).
Proof.
  intros Hm Hh tr. unfold try_catch. destruct (Hm tr) as [Hext Hval].
  destruct (m tr) as [[a | e] tr1]; simpl in *.
  - split; [exact Hext | exact Hval].
  - destruct (Hh e tr1) as [Hext' Hval'].
    split; [eapply extends_trans; eassumption | exact Hval'].
Qed.

Lemma spec_weaken {A} (R R' : A -> Prop) (m : M A) :
  (forall a, R a -> R' a) -> run_spec P R m -> run_spec P R' m.
Proof.
  intros HR Hm tr. destruct (Hm tr) as [Hext Hval].
  split; [exact Hext | intros a Ha; apply HR, Hval, Ha].
Qed.

Lemma spec_if {A} (R : A -> Prop) (b : bool) (m1 m2 : M A) :
  run_spec P R m1 -> run_spec P R m2 -> run_spec P R (if b then m1 else m2).
Proof. destruct b; auto. Qed.

(** [Promise.all] returns one value for each promise. *)
Lemma spec_all_settled {A} (ms : list (M A)) :
  Forall (run_spec P any) ms ->
  run_spec P (fun rs => length rs = length ms) (all_settled ms).
Proof.
  induction ms as [| m ms IH]; intros Hms.
  - apply spec_ret. reflexivity.
  - inversion Hms as [| ? ? Hm Hrest]; subst. intros tr.
    cbn [all_settled]. destruct (Hm tr) as [Hext _].
    destruct (m tr) as [r tr1]. simpl in Hext.
    destruct (IH Hrest tr1) as [Hext' Hval'].
    destruct (all_settled ms tr1) as [[rs | e] tr2]; simpl in *.
    + split; [eapply extends_trans; eassumption |].
      intros a Ha. injection Ha as <-. simpl. f_equal. apply Hval'. reflexivity.
    + split; [eapply extends_trans; eassumption | discriminate].
Qed.

Lemma first_failure_length {A} (rs : list (result A)) (l : list A) :
  first_failure rs = Ok l -> length l = length rs.
Proof.
  revert l. induction rs as [| r rs IH]; intros l H; simpl in H.
  - injection H as <-. reflexivity.
  - destruct r as [a | e]; [| discriminate].
    destruct (first_failure rs) as [l' | e]; [| discriminate].
    injection H as <-. simpl. f_equal. apply IH. reflexivity.
Qed.

Lemma spec_Promise_all {A} (ms : list (M A)) :
  Forall (run_spec P any) ms ->
  run_spec P (fun l => length l = length ms) (Promise_all ms).
Proof.
  intros Hms tr. unfold Promise_all, bind, lift.
  destruct (spec_all_settled Hms tr) as [Hext Hval].
  destruct (all_settled ms tr) as [[rs | e] tr1]; simpl in *.
  - split; [exact Hext |]. intros l Hl.
    rewrite (first_failure_length _ Hl). apply Hval. reflexivity.
  - split; [exact Hext | discriminate].
Qed.

End TraceFacts.

(** * The dispatcher (Bluesky.post) *)

Section PostFacts.

Variable env : Env.
Variable this : Bluesky.

Ltac quiet_step :=
  first
    [ apply spec_ret; exact I
    | apply spec_throw
    | apply spec_lift
    | apply spec_call; reflexivity
    | apply spec_try_catch; [| intros ? ]
    | apply spec_bind with (R1 := any); [| intros ? _ ]
    | apply spec_if
    | match goal with
      | |- run_spec _ _ (match ?o with _ => _ end) => destruct o
      end ].

Lemma client_quiet : run_spec quiet any (client env this).
Proof. unfold client. quiet_step. Qed.

Lemma uploadMedia_quiet (media : Photo) (me : jsstring) :
  run_spec quiet any (uploadMedia env this media me).
Proof.
  unfold uploadMedia, fetch, uploadBlob.
  apply spec_bind with (R1 := any); [apply client_quiet | intros _ _].
  destruct (photo_url media); repeat quiet_step.
Qed.

Lemma length_slice_prefix {A} (l : list A) (n : Z) :
  0 <= n -> length (slice l 0 n) = Nat.min (Z.to_nat n) (length l).
Proof.
  intros Hn. unfold slice, rel_index. simpl (0 <? 0).
  assert (Hlt : (n <? 0) = false) by (apply Z.ltb_ge; lia).
  rewrite Hlt. rewrite (Z.min_l 0) by apply len_nonneg.
  simpl. rewrite length_firstn. unfold len. lia.
Qed.

(** Lines 322-333 create no record, and return one image for each of the
    first four photos. *)
Lemma post_uploads_quiet (properties : Properties) (me : jsstring) :
  run_spec quiet
    (fun images =>
       length images
       = match photo properties with
         | Some all => Nat.min 4 (length all)
         | None => 0%nat
         end)
    (post_uploads env this properties me).
Proof.
  unfold post_uploads.
  apply spec_bind with (R1 := any); [apply client_quiet | intros _ _].
  destruct (photo properties) as [all |].
  - eapply spec_weaken; [| apply spec_Promise_all].
    + cbv beta. intros images ->. rewrite length_map.
      rewrite length_slice_prefix by lia. reflexivity.
    + apply Forall_map, Forall_forall. intros media _.
      apply spec_bind with (R1 := any); [apply uploadMedia_quiet |].
      intros image _. quiet_step.
  - apply spec_ret. reflexivity.
Qed.

Section ExternalLike.

Variables (properties : Properties) (likeOfUrl : jsstring).
Hypothesis no_repost : truthy_opt (repost_of properties) = false.
Hypothesis like : like_of properties = Some likeOfUrl.
Hypothesis like_present : truthy likeOfUrl = true.
Hypothesis external : isSameOrigin env likeOfUrl (profileUrl this) = Ok false.
Hypothesis disabled : syndicateExternalLikes this = false.

(** Lines 359-376 with the syndication of external likes turned off: the
    bare [return] of line 376, and no call at all. *)
Lemma post_dispatch_like_disabled (images : list Image) (tr : Trace) :
  post_dispatch env this properties images tr = (Ok None, tr).
Proof.
  unfold post_dispatch. rewrite no_repost, like.
  cbn [truthy_opt or_empty]. rewrite like_present.
  unfold bind, lift. rewrite external, disabled. reflexivity.
Qed.

End ExternalLike.

(** C7, as the code has it.  For a post with a [like-of] marker and no
    [repost-of] marker, whose liked URL is not of the origin of the profile,
    and with [syndicateExternalLikes] false: [post] creates no record on the
    account (no post, like or repost); once the session is opened and the
    photos, if any, are uploaded, it makes no further call and returns
    [undefined]; it fails only when the session or an upload fails. *)
Theorem external_like_disabled_is_noop
    (properties : Properties) (me likeOfUrl : jsstring) (tr : Trace) :
  truthy_opt (repost_of properties) = false ->
  like_of properties = Some likeOfUrl ->
  truthy likeOfUrl = true ->
  isSameOrigin env likeOfUrl (profileUrl this) = Ok false ->
  syndicateExternalLikes this = false ->
  extends_with quiet tr (snd (post env this properties me tr))
  /\ (forall images tr1,
        post_uploads env this properties me tr = (Ok images, tr1) ->
        post env this properties me tr = (Ok None, tr1))
  /\ (forall e tr1,
        post_uploads env this properties me tr = (Throw e, tr1) ->
        post env this properties me tr = (Throw (mkError (message e)), tr1)).
Proof.
  intros Hrepost Hlike Hpresent Hexternal Hdisabled.
  pose proof (post_uploads_quiet properties me tr) as [Hext _].
  unfold post, try_catch, bind.
  destruct (post_uploads env this properties me tr) as [[images | e] tr1].
  - rewrite (post_dispatch_like_disabled properties Hrepost Hlike Hpresent
               Hexternal Hdisabled).
    split; [exact Hext | split].
    + intros images' tr1' H. injection H as _ <-. reflexivity.
    + discriminate.
  - split; [exact Hext | split].
    + discriminate.
    + intros e' tr1' H. injection H as <- <-. reflexivity.
Qed.

(** One run of [createRichText]: the annotator is asked once. *)
Lemma createRichText_run (text : jsstring) (linkFacets : list Facet)
    (tr : Trace) :
  createRichText env text linkFacets tr
  = (match atp_detectFacets env tr text with
     | Ok facets => Ok (mkRichText text facets)
     | Throw e => Throw e
     end, EvDetectFacets text :: tr).
Proof.
  unfold createRichText, bind, call, ret.
  destruct (atp_detectFacets env tr text); reflexivity.
Qed.

(** One run of [postPost]: a login, then at most one post. *)
Lemma postPost_run (richText : RichText) (options : PostOptions) (tr : Trace) :
  let login := EvLogin (serviceUrl this) (identifier this) (password this) in
  let postData := postPost_data env richText options (login :: tr) in
  postPost env this richText options tr
  = match atp_login env tr (serviceUrl this) (identifier this)
            (password this) with
    | Ok _ =>
        (match atp_post env (login :: tr) postData with
         | Ok uri => Ok (uriToPostUrl (profileUrl this) uri)
         | Throw e => Throw e
         end, EvPost postData :: login :: tr)
    | Throw e => (Throw e, login :: tr)
    end.
Proof.
  unfold postPost, postPost_data, client, now, client_post, bind, call, ret.
  destruct (atp_login env tr (serviceUrl this) (identifier this)
              (password this)) as [[] | e]; [| reflexivity].
  destruct (atp_post env _ _); reflexivity.
Qed.

Section RegularPost.

Variable properties : Properties.
Hypothesis no_repost : truthy_opt (repost_of properties) = false.
Hypothesis no_like : truthy_opt (like_of properties) = false.
Hypothesis no_bookmark : truthy_opt (bookmark_of properties) = false.

(** Lines 388-412 with at least one image: the text is annotated, no card
    is built, and [postPost] is called with the images. *)
Lemma post_dispatch_regular_run (i : Image) (gallery : list Image) (tr : Trace) :
  let text := buildPostText env properties
                (getExternalUrl (url_hostname env) properties None) in
  post_dispatch env this properties (i :: gallery) tr
  = match atp_detectFacets env tr text with
    | Ok facets =>
        postPost env this (mkRichText text facets)
          (mkPostOptions (Some (i :: gallery)) None)
          (EvDetectFacets text :: tr)
    | Throw e => (Throw e, EvDetectFacets text :: tr)
    end.
Proof.
  intros text. unfold post_dispatch. rewrite no_repost, no_like, no_bookmark.
  cbv zeta. fold text.
  change (len (i :: gallery) =? 0) with false. cbv iota.
  unfold bind. rewrite createRichText_run.
  destruct (atp_detectFacets env tr text); reflexivity.
Qed.

(** Lines 388-412 with at least one image: the one record created, if the
    session opens, is a post with the gallery. *)
Lemma post_dispatch_gallery (gallery : list Image) (tr : Trace) :
  gallery <> [] ->
  exists evs,
    snd (post_dispatch env this properties gallery tr) = evs ++ tr
    /\ ((Forall quiet evs
         /\ exists e, fst (post_dispatch env this properties gallery tr)
                      = Throw e)
        \/ (exists postData evs',
              evs = EvPost postData :: evs'
              /\ Forall quiet evs'
              /\ embed postData = Some (EmbedImages gallery)
              /\ fst (post_dispatch env this properties gallery tr)
                 = match atp_post env (evs' ++ tr) postData with
                   | Ok uri => Ok (uriToPostUrl (profileUrl this) uri)
                   | Throw e => Throw e
                   end)).
Proof.
  intros Hnonempty. destruct gallery as [| i gallery]; [congruence |].
  rewrite post_dispatch_regular_run. cbv zeta.
  set (text := buildPostText env properties
                 (getExternalUrl (url_hostname env) properties None)).
  destruct (atp_detectFacets env tr text) as [facets | e].
  - rewrite postPost_run. cbv zeta.
    set (login := EvLogin (serviceUrl this) (identifier this) (password this)).
    destruct (atp_login env (EvDetectFacets text :: tr) (serviceUrl this)
                (identifier this) (password this)) as [[] | e].
    + eexists (EvPost _ :: [login; EvDetectFacets text]).
      split; [reflexivity |].
      right. eexists. eexists. split; [reflexivity |].
      split; [repeat constructor |]. split; reflexivity.
    + exists [login; EvDetectFacets text].
      split; [reflexivity |]. left. split; [repeat constructor |].
      exists e. reflexivity.
  - exists [EvDetectFacets text]. split; [reflexivity |]. left.
    split; [repeat constructor |]. exists e. reflexivity.
Qed.

End RegularPost.

(** C9.  For a post without [repost-of], [like-of] and [bookmark-of] markers
    and with at least one photo, a run of [post] either fails without
    creating any record, or creates exactly one record: a post whose embed
    is the image gallery, with between one and four images.  No external
    card is attached to it.  The run returns the URL of that post when the
    backend accepts it. *)
Theorem regular_post_with_photos_embeds_gallery
    (properties : Properties) (me : jsstring) (first : Photo)
    (others : list Photo) (tr : Trace) :
  truthy_opt (repost_of properties) = false ->
  truthy_opt (like_of properties) = false ->
  truthy_opt (bookmark_of properties) = false ->
  photo properties = Some (first :: others) ->
  exists evs,
    snd (post env this properties me tr) = evs ++ tr
    /\ ((Forall quiet evs
         /\ exists e, fst (post env this properties me tr) = Throw e)
        \/ (exists postData evs' gallery,
              evs = EvPost postData :: evs'
              /\ Forall quiet evs'
              /\ embed postData = Some (EmbedImages gallery)
              /\ 1 <= len gallery <= 4
              /\ fst (post env this properties me tr)
                 = match atp_post env (evs' ++ tr) postData with
                   | Ok uri => Ok (uriToPostUrl (profileUrl this) uri)
                   | Throw e => Throw (mkError (message e))
                   end)).
Proof.
  intros Hrepost Hlike Hbookmark Hphoto.
  pose proof (post_uploads_quiet properties me tr) as [[evs0 [Htr0 Hq0]] Hlen].
  unfold post, try_catch, bind.
  destruct (post_uploads env this properties me tr) as [[gallery | e] tr1];
    cbn [fst snd] in Htr0, Hlen.
  - specialize (Hlen gallery eq_refl). rewrite Hphoto in Hlen.
    change (length (first :: others)) with (S (length others)) in Hlen.
    assert (Hne : gallery <> []).
    { intros ->. change (length (@nil Image)) with 0%nat in Hlen. lia. }
    destruct (post_dispatch_gallery properties Hrepost Hlike Hbookmark tr1 Hne)
      as [evs [Htr Hcases]].
    destruct (post_dispatch env this properties gallery tr1)
      as [r tr2] eqn:Hrun.
    simpl in Htr, Hcases. subst tr1 tr2.
    exists (evs ++ evs0). split.
    { destruct r; simpl; apply app_assoc. }
    destruct Hcases as [[Hq [e ->]] | [postData [evs' [-> [Hq' [Hembed Hres]]]]]].
    + left. split; [apply Forall_app; split; assumption |].
      eexists. reflexivity.
    + right. exists postData, (evs' ++ evs0), gallery.
      split; [reflexivity |]. split; [apply Forall_app; split; assumption |].
      split; [exact Hembed |]. split; [unfold len; lia |].
      rewrite <- app_assoc. subst r.
      destruct (atp_post env (evs' ++ evs0 ++ tr) postData); reflexivity.
  - exists evs0. split; [exact Htr0 |]. left. split; [exact Hq0 |].
    eexists. reflexivity.
Qed.

End PostFacts.

(** The theorem in the sample world: the like of an external page, with
    the option turned off, opens the session and returns [undefined]. *)
Lemma external_like_disabled_is_noop_witness :
  post (sample_env true) sample_account sample_like sample_me []
  = (Ok None,
     [EvLogin (lit "https://bsky.social") (lit "me.bsky.social")
        (lit "app-password")]).
Proof.
  refine (proj1 (proj2 (external_like_disabled_is_noop (sample_env true)
                          sample_account sample_like sample_me
                          (likeOfUrl := sample_liked_url) [] _ _ _ _ _))
            [] _ _);
    reflexivity.
Defined.

(** C7 as stated fails: a post with an external [like-of] marker that also
    has a [repost-of] marker is syndicated as a repost, although
    [syndicateExternalLikes] is false. *)
Lemma external_like_disabled_still_posts :
  like_of sample_repost_and_like = Some sample_liked_url
  /\ isSameOrigin (sample_env true) sample_liked_url (profileUrl sample_account)
     = Ok false
  /\ syndicateExternalLikes sample_account = false
  /\ existsb is_posting
       (snd (post (sample_env true) sample_account sample_repost_and_like
               sample_me [])) = true
  /\ fst (post (sample_env true) sample_account sample_repost_and_like
            sample_me [])
     = Ok (Some (lit "https://bsky.app/profile/did:plc:abc/post/xyz")).
Proof. vm_compute. repeat split. Qed.

(** The theorem in the sample world, at a note with five photos. *)
Lemma regular_post_with_photos_embeds_gallery_witness :
  exists evs,
    snd (post (sample_env true) sample_account sample_photo_post sample_me [])
    = evs ++ []
    /\ ((Forall quiet evs
         /\ exists e,
              fst (post (sample_env true) sample_account sample_photo_post
                     sample_me []) = Throw e)
        \/ (exists postData evs' gallery,
              evs = EvPost postData :: evs'
              /\ Forall quiet evs'
              /\ embed postData = Some (EmbedImages gallery)
              /\ 1 <= len gallery <= 4
              /\ fst (post (sample_env true) sample_account sample_photo_post
                        sample_me [])
                 = match atp_post (sample_env true) (evs' ++ []) postData with
                   | Ok uri =>
                       Ok (uriToPostUrl (profileUrl sample_account) uri)
                   | Throw e => Throw (mkError (message e))
                   end)).
Proof.
  apply (regular_post_with_photos_embeds_gallery (sample_env true)
           sample_account sample_photo_post sample_me
           (first := sample_photo "1.png")
           (others := [sample_photo "2.png"; sample_photo "3.png";
                       sample_photo "4.png"; sample_photo "5.png"]) []);
    reflexivity.
Defined.

(** * Further properties of the composed text *)

Section IncludesFacts.

Lemma startsWith_app_self (p s : jsstring) : startsWith (p ++ s) p = true.
Proof.
  induction p as [| c p IH]; simpl; [destruct s; reflexivity |].
  rewrite N.eqb_refl. exact IH.
Qed.

Lemma startsWith_app_more (s p t : jsstring) :
  startsWith s p = true -> startsWith (s ++ t) p = true.
Proof.
  revert s. induction p as [| c p IH]; intros s H;
    [destruct (s ++ t); reflexivity |].
  destruct s as [| x s]; simpl in *; [discriminate |].
  apply andb_true_iff in H as [Hx H]. rewrite Hx. apply IH, H.
Qed.

Lemma includes_startsWith (t p : jsstring) :
  startsWith t p = true -> includes t p = true.
Proof. intros H. destruct t; cbn [includes]; rewrite H; reflexivity. Qed.

Lemma includes_self (p s : jsstring) : includes (p ++ s) p = true.
Proof. apply includes_startsWith, startsWith_app_self. Qed.

Lemma includes_app_right (a b p : jsstring) :
  includes b p = true -> includes (a ++ b) p = true.
Proof.
  intros H. induction a as [| x a IH]; [exact H |].
  cbn [app includes]. rewrite IH. apply orb_true_r.
Qed.

Lemma includes_app_left (a b p : jsstring) :
  includes a p = true -> includes (a ++ b) p = true.
Proof.
  induction a as [| x a IH]; intros H.
  - simpl in H. rewrite orb_false_r in H.
    destruct p as [| c p]; [| discriminate].
    destruct b; reflexivity.
  - cbn [includes] in H. apply orb_true_iff in H as [H | H].
    + apply includes_startsWith, startsWith_app_more, H.
    + change ((x :: a) ++ b) with (x :: (a ++ b)). cbn [includes].
      rewrite (IH H). apply orb_true_r.
Qed.

End IncludesFacts.

Section ComposedTextMore.

Variable htmlToText : jsstring -> jsstring.

(** X1.  When the permalink is asked for, or when the text is truncated,
    the text composed by [getPostText] contains the permalink. *)
Theorem getPostText_contains_permalink
    (properties : Properties) (includePermalink : bool) :
  includePermalink = true
  \/ len (getPostText_status htmlToText properties) > 300 ->
  includes (getPostText htmlToText properties includePermalink)
    (url properties) = true.
Proof.
  intros H. unfold getPostText.
  destruct (Z.gtb_spec (len (getPostText_status htmlToText properties)) 300)
    as [Hlong | Hshort].
  - unfold permalink_suffix.
    apply includes_app_right, includes_app_right.
    apply (includes_app_right [newline; newline]).
    rewrite <- (app_nil_r (url properties)) at 1. apply includes_self.
  - destruct H as [-> | Hlong]; [| lia]. cbn [andb].
    destruct (includes (getPostText_status htmlToText properties)
                (url properties)) eqn:Hin; cbn [negb].
    + exact Hin.
    + apply includes_app_right. apply (includes_app_right [newline; newline]).
      rewrite <- (app_nil_r (url properties)) at 1. apply includes_self.
Qed.

(** X2.  The text composed by [getLikePostText] always contains the liked
    URL: in the comment already, in the marker line added to it, alone after
    the heart, or in the marker line kept by the truncation. *)
Theorem getLikePostText_contains_liked_url
    (properties : Properties) (likedUrl : jsstring) :
  includes (getLikePostText htmlToText properties likedUrl) likedUrl = true.
Proof.
  assert (Hself : includes likedUrl likedUrl = true).
  { rewrite <- (app_nil_r likedUrl) at 1. apply includes_self. }
  unfold getLikePostText.
  destruct (len (getLikePostText_status htmlToText properties likedUrl) >? 300).
  - unfold like_suffix.
    apply includes_app_right, includes_app_right.
    apply (includes_app_right [newline; newline]).
    apply includes_app_right, includes_app_right, Hself.
  - unfold getLikePostText_status.
    destruct (truthy (getLikePostText_content htmlToText properties)).
    + destruct (includes (getLikePostText_content htmlToText properties)
                  likedUrl) eqn:Hin; cbn [negb].
      * exact Hin.
      * apply includes_app_right. apply (includes_app_right [newline; newline]).
        apply includes_app_right, includes_app_right, Hself.
    + apply includes_app_right, includes_app_right, Hself.
Qed.

(** X3.  With a marker line of at most 297 code units, the text of a like
    is never longer than 300 code units; so is the text of a post with a
    permalink line of at most 297 code units when the permalink is not asked
    for. *)
Theorem composed_text_at_most_300
    (properties : Properties) (likedUrl : jsstring) :
  (len (like_suffix likedUrl) <= 297 ->
   len (getLikePostText htmlToText properties likedUrl) <= 300)
  /\ (len (permalink_suffix properties) <= 297 ->
      len (getPostText htmlToText properties false) <= 300).
Proof.
  split; intros Hsuffix.
  - destruct (Z.gtb_spec
                (len (getLikePostText_status htmlToText properties likedUrl))
                300) as [Hlong | Hshort].
    + rewrite getLikePostText_truncates by lia.
      apply truncation_length; [exact Hsuffix |].
      pose proof (length_replace_first_empty
                    (getLikePostText_status htmlToText properties likedUrl)
                    (like_suffix likedUrl)) as Hrep.
      unfold len in *. lia.
    + unfold getLikePostText.
      destruct (Z.gtb_spec
                  (len (getLikePostText_status htmlToText properties likedUrl))
                  300); [lia | exact Hshort].
  - destruct (Z.gtb_spec (len (getPostText_status htmlToText properties)) 300)
      as [Hlong | Hshort].
    + rewrite getPostText_truncates by lia.
      pose proof (len_nonneg (permalink_suffix properties)).
      apply truncation_length; lia.
    + unfold getPostText.
      destruct (Z.gtb_spec (len (getPostText_status htmlToText properties))
                  300); [lia | exact Hshort].
Qed.

End ComposedTextMore.

(** The theorems at a short note with the permalink asked for, and at a
    note of 301 letters without it. *)
Lemma getPostText_contains_permalink_witness :
  includes (getPostText (fun s => s)
              (note (lit "https://me.example/p1") (lit "hello")) true)
    (lit "https://me.example/p1") = true
  /\ includes (getPostText (fun s => s) sample_long_note false)
       (lit "https://me.example/p1") = true.
Proof.
  split.
  - apply (@getPostText_contains_permalink (fun s => s)
             (note (lit "https://me.example/p1") (lit "hello")) true).
    left. reflexivity.
  - apply (@getPostText_contains_permalink (fun s => s) sample_long_note false).
    right. vm_compute. reflexivity.
Defined.

Lemma composed_text_at_most_300_witness :
  len (getLikePostText (fun s => s) sample_spaced_note sample_liked_url) <= 300
  /\ len (getPostText (fun s => s) sample_spaced_note false) <= 300.
Proof.
  destruct (composed_text_at_most_300 (fun s => s) sample_spaced_note
              sample_liked_url) as [Hlike Hpost].
  split; [apply Hlike | apply Hpost]; vm_compute; discriminate.
Defined.

(** * Further properties of the thumbnail text *)

Section EscapeFacts.

Lemma replace_all_char_removes (c : code_unit) (repl s : jsstring) :
  forallb (fun x => negb (x =? c)%N) repl = true ->
  forallb (fun x => negb (x =? c)%N) (replace_all_char c repl s) = true.
Proof.
  intros Hrepl. unfold replace_all_char.
  induction s as [| x s IH]; [reflexivity |].
  change (forallb (fun x => negb (x =? c)%N)
            ((if (x =? c)%N then repl else [x])
             ++ flat_map (fun x => if (x =? c)%N then repl else [x]) s) = true).
  rewrite forallb_app. apply andb_true_iff. split; [| exact IH].
  destruct (x =? c)%N eqn:E; [exact Hrepl |].
  cbn [forallb]. rewrite E. reflexivity.
Qed.

Lemma replace_all_char_keeps (d c : code_unit) (repl s : jsstring) :
  forallb (fun x => negb (x =? d)%N) repl = true ->
  forallb (fun x => negb (x =? d)%N) s = true ->
  forallb (fun x => negb (x =? d)%N) (replace_all_char c repl s) = true.
Proof.
  intros Hrepl. unfold replace_all_char.
  induction s as [| x s IH]; intros Hs; [reflexivity |].
  cbn [forallb] in Hs. apply andb_true_iff in Hs as [Hx Hs].
  change (forallb (fun x => negb (x =? d)%N)
            ((if (x =? c)%N then repl else [x])
             ++ flat_map (fun x => if (x =? c)%N then repl else [x]) s) = true).
  rewrite forallb_app. apply andb_true_iff. split; [| exact (IH Hs)].
  destruct (x =? c)%N; [exact Hrepl |].
  cbn [forallb]. rewrite Hx. reflexivity.
Qed.

Lemma replace_all_char_absent (c : code_unit) (repl s : jsstring) :
  forallb (fun x => negb (x =? c)%N) s = true ->
  replace_all_char c repl s = s.
Proof.
  unfold replace_all_char. induction s as [| x s IH]; intros Hs;
    [reflexivity |].
  cbn [forallb] in Hs. apply andb_true_iff in Hs as [Hx Hs].
  change ((if (x =? c)%N then repl else [x])
          ++ flat_map (fun x => if (x =? c)%N then repl else [x]) s = x :: s).
  apply negb_true_iff in Hx. rewrite Hx. cbn [app]. f_equal. exact (IH Hs).
Qed.

(** X4.  The text [escapeXml] returns holds no angle bracket and no quote;
    and a text without ampersand, angle bracket or quote is returned as it
    is. *)
Theorem escapeXml_no_markup (s : jsstring) :
  (forall c, In c (escapeXml s) ->
     c <> 60%N /\ c <> 62%N /\ c <> dquote /\ c <> squote)
  /\ (forallb (fun c => negb ((c =? 38) || (c =? 60) || (c =? 62)
                            || (c =? dquote) || (c =? squote))%N) s = true ->
      escapeXml s = s).
Proof.
  split.
  - assert (Hlt : forallb (fun x => negb (x =? 60)%N) (escapeXml s) = true).
    { unfold escapeXml.
      do 3 (apply replace_all_char_keeps; [reflexivity |]).
      apply replace_all_char_removes. reflexivity. }
    assert (Hgt : forallb (fun x => negb (x =? 62)%N) (escapeXml s) = true).
    { unfold escapeXml.
      do 2 (apply replace_all_char_keeps; [reflexivity |]).
      apply replace_all_char_removes. reflexivity. }
    assert (Hdq : forallb (fun x => negb (x =? dquote)%N) (escapeXml s) = true).
    { unfold escapeXml.
      apply replace_all_char_keeps; [reflexivity |].
      apply replace_all_char_removes. reflexivity. }
    assert (Hsq : forallb (fun x => negb (x =? squote)%N) (escapeXml s) = true).
    { unfold escapeXml. apply replace_all_char_removes. reflexivity. }
    intros c Hc.
    rewrite forallb_forall in Hlt, Hgt, Hdq, Hsq.
    specialize (Hlt c Hc). specialize (Hgt c Hc).
    specialize (Hdq c Hc). specialize (Hsq c Hc).
    apply negb_true_iff, N.eqb_neq in Hlt, Hgt, Hdq, Hsq. auto.
  - intros Hplain.
    assert (Hall : forall d, In d [38; 60; 62; dquote; squote]%N ->
                     forallb (fun x => negb (x =? d)%N) s = true).
    { intros d Hd. apply forallb_forall. intros x Hx.
      rewrite forallb_forall in Hplain. specialize (Hplain x Hx).
      apply negb_true_iff in Hplain.
      repeat (apply orb_false_iff in Hplain as [Hplain ?]).
      simpl in Hd.
      repeat (destruct Hd as [<- | Hd]; [apply negb_true_iff; assumption |]).
      contradiction. }
    unfold escapeXml.
    rewrite (replace_all_char_absent 38%N _ s) by (apply Hall; simpl; auto).
    rewrite (replace_all_char_absent 60%N _ s) by (apply Hall; simpl; auto).
    rewrite (replace_all_char_absent 62%N _ s) by (apply Hall; simpl; auto).
    rewrite (replace_all_char_absent dquote _ s)
      by (apply Hall; simpl; auto 6).
    apply replace_all_char_absent. apply Hall. simpl. auto 6.
Qed.

End EscapeFacts.

Lemma escapeXml_no_markup_witness :
  escapeXml (lit "Plain title") = lit "Plain title".
Proof.
  apply (proj2 (escapeXml_no_markup (lit "Plain title"))). reflexivity.
Defined.

Section WrapTextMore.

Variables maxCharsPerLine maxLines : Z.

(** X5.  With room for at least one line, [wrapText] does not throw, and it
    returns at most [maxLines] lines. *)
Theorem wrapText_returns_lines (text : jsstring) :
  1 <= maxLines ->
  exists lines,
    wrapText text maxCharsPerLine maxLines = Ok lines
    /\ len lines <= maxLines.
Proof.
  intros Hmax.
  assert (Hok : exists lines, wrapText text maxCharsPerLine maxLines = Ok lines).
  { unfold wrapText.
    destruct (wrapText_loop maxCharsPerLine maxLines (split_spaces text) [] [])
      as [lines0 currentLine].
    set (lines1 := if truthy currentLine && (len lines0 <? maxLines)
                   then lines0 ++ [currentLine] else lines0).
    destruct (Z.eqb_spec (len lines1) maxLines) as [Hfull | Hnot];
      cbn [andb]; [| eexists; reflexivity].
    destruct (len (split_spaces text) >? _); [| eexists; reflexivity].
    unfold index.
    assert (Hpos : (maxLines - 1 <? 0) = false) by (apply Z.ltb_ge; lia).
    rewrite Hpos.
    destruct (nth_error lines1 (Z.to_nat (maxLines - 1))) as [lastLine |] eqn:E.
    - destruct (len lastLine >? maxCharsPerLine - 3); [eexists; reflexivity |].
      destruct (negb (endsWith lastLine ellipsis)); eexists; reflexivity.
    - apply nth_error_None in E. unfold len in Hfull. lia. }
  destruct Hok as [lines Hlines]. exists lines. split; [exact Hlines |].
  apply (@wrapText_at_most_maxLines maxCharsPerLine maxLines text lines);
    [lia | exact Hlines].
Qed.

Lemma wrapText_loop_fits (words lines : list jsstring) (currentLine : jsstring) :
  3 <= maxCharsPerLine ->
  Forall (fits maxCharsPerLine) words ->
  Forall (fits maxCharsPerLine) lines ->
  fits maxCharsPerLine currentLine ->
  Forall (fits maxCharsPerLine)
    (fst (wrapText_loop maxCharsPerLine maxLines words lines currentLine))
  /\ fits maxCharsPerLine
       (snd (wrapText_loop maxCharsPerLine maxLines words lines currentLine)).
Proof.
  intros Hthree. revert lines currentLine.
  induction words as [| word rest IH]; intros lines currentLine Hwords Hlines Hcur;
    cbn [wrapText_loop]; [split; assumption |].
  inversion Hwords as [| ? ? Hword Hrest]; subst.
  destruct (len lines >=? maxLines); [split; assumption |].
  destruct (Z.leb_spec
              (len (if truthy currentLine
                    then currentLine ++ space ++ word else word))
              maxCharsPerLine) as [Hfit | Hover].
  - apply IH; assumption.
  - destruct (truthy currentLine).
    + apply IH; try assumption.
      apply Forall_app. split; [assumption | repeat constructor; assumption].
    + apply IH; try assumption.
      * apply Forall_app. split; [assumption |]. repeat constructor.
        unfold fits. rewrite len_app, len_ellipsis.
        pose proof (len_slice_prefix_le word (n := maxCharsPerLine - 3)).
        lia.
      * unfold fits, len. simpl. lia.
Qed.

Lemma Forall_set_nth (Q : jsstring -> Prop) (l : list jsstring) (i : nat)
    (v : jsstring) :
  Forall Q l -> Q v -> Forall Q (set_nth l i v).
Proof.
  intros Hl Hv. revert i. induction Hl as [| x l Hx Hl IH]; intros i;
    [constructor |].
  destruct i; simpl; constructor; auto.
Qed.

(** X6.  When no word of the text is longer than [maxCharsPerLine], and
    that limit is at least 3, every line [wrapText] returns is at most
    [maxCharsPerLine] characters long, the final ellipsis included. *)
Theorem wrapText_short_words_fit (text : jsstring) (lines : list jsstring) :
  3 <= maxCharsPerLine ->
  Forall (fun word => len word <= maxCharsPerLine) (split_spaces text) ->
  wrapText text maxCharsPerLine maxLines = Ok lines ->
  Forall (fun line => len line <= maxCharsPerLine) lines.
Proof.
  intros Hthree Hwords. unfold wrapText.
  assert (Hempty : fits maxCharsPerLine []) by (unfold fits, len; simpl; lia).
  pose proof (@wrapText_loop_fits (split_spaces text) [] [] Hthree Hwords
                (Forall_nil _) Hempty) as [Hlines0 Hcur].
  destruct (wrapText_loop maxCharsPerLine maxLines (split_spaces text) [] [])
    as [lines0 currentLine].
  cbn [fst snd] in Hlines0, Hcur.
  set (lines1 := if truthy currentLine && (len lines0 <? maxLines)
                 then lines0 ++ [currentLine] else lines0).
  assert (H1 : Forall (fits maxCharsPerLine) lines1).
  { subst lines1. destruct (truthy currentLine && (len lines0 <? maxLines));
      [| exact Hlines0].
    apply Forall_app. split; [exact Hlines0 | repeat constructor; exact Hcur]. }
  destruct ((len lines1 =? maxLines) && _).
  - destruct (index lines1 (maxLines - 1)) as [lastLine |]; [| discriminate].
    destruct (Z.gtb_spec (len lastLine) (maxCharsPerLine - 3)) as [Hlong | Hshort].
    + intros H. injection H as <-. apply Forall_set_nth; [exact H1 |].
      unfold fits. rewrite len_app, len_ellipsis.
      pose proof (len_slice_prefix_le lastLine (n := maxCharsPerLine - 3)).
      lia.
    + destruct (negb (endsWith lastLine ellipsis)); intros H;
        injection H as <-; [| exact H1].
      apply Forall_set_nth; [exact H1 |].
      unfold fits. rewrite len_app, len_ellipsis. lia.
  - intros H. injection H as <-. exact H1.
Qed.

End WrapTextMore.

Lemma wrapText_returns_lines_witness :
  exists lines, wrapText sample_long_title 35 4 = Ok lines /\ len lines <= 4.
Proof. apply (@wrapText_returns_lines 35 4 sample_long_title). lia. Defined.

Lemma wrapText_short_words_fit_witness :
  Forall (fun line => len line <= 35)
    [lit "A very long title that exceeds"; lit "thirty five characters easily"].
Proof.
  apply (@wrapText_short_words_fit 35 4 sample_long_title).
  - lia.
  - vm_compute. repeat (constructor; [discriminate |]). constructor.
  - vm_compute. reflexivity.
Defined.

(** * Further properties of post URLs *)

Section PostUrlMore.

Lemma strip_prefix_some (p s r : jsstring) :
  strip_prefix p s = Some r -> s = p ++ r.
Proof.
  revert s. induction p as [| c p IH]; intros s H.
  - simpl in H. destruct s; injection H as <-; reflexivity.
  - destruct s as [| x s]; simpl in H; [discriminate |].
    destruct (N.eqb_spec x c) as [-> |]; [| discriminate].
    cbn [app]. f_equal. apply IH, H.
Qed.

Lemma span_some (p : code_unit -> bool) (s a b : jsstring) :
  span p s = (a, b) -> s = a ++ b /\ forallb p a = true.
Proof.
  revert a b. induction s as [| c s IH]; intros a b H; simpl in H.
  - injection H as <- <-. split; reflexivity.
  - destruct (p c) eqn:Hc.
    + destruct (span p s) as [a' b'] eqn:E. injection H as <- <-.
      destruct (IH a' b' eq_refl) as [-> Ha]. split; [reflexivity |].
      cbn [forallb]. rewrite Hc, Ha. reflexivity.
    + injection H as <- <-. split; reflexivity.
Qed.

(** A first match is a match at some position of the text. *)
Lemma match_first_some {A} (here : jsstring -> option A) (s : jsstring) (m : A) :
  match_first here s = Some m ->
  exists before after, s = before ++ after /\ here after = Some m.
Proof.
  induction s as [| c s IH]; cbn [match_first]; intros H.
  - destruct (here []) eqn:E; [| discriminate]. injection H as <-.
    exists [], []. split; [reflexivity | exact E].
  - destruct (here (c :: s)) eqn:E.
    + injection H as <-. exists [], (c :: s). split; [reflexivity | exact E].
    + destruct (IH H) as [before [after [-> Hm]]].
      exists (c :: before), after. split; [reflexivity | exact Hm].
Qed.

(** What [AT_URI] captures. *)
Lemma AT_URI_here_some (s did type rkey : jsstring) :
  AT_URI_here s = Some (did, type, rkey) ->
  startsWith s (lit "at://did:") = true
  /\ exists d, did = lit "did:" ++ d /\ d <> []
       /\ forallb not_slash d = true
       /\ type <> [] /\ forallb not_slash type = true
       /\ rkey <> [] /\ forallb not_slash rkey = true.
Proof.
  unfold AT_URI_here. intros H.
  destruct (strip_prefix (lit "at://") s) as [s1 |] eqn:E1; [| discriminate].
  destruct (strip_prefix (lit "did:") s1) as [s2 |] eqn:E2; [| discriminate].
  apply strip_prefix_some in E1, E2. subst s s1.
  destruct (span not_slash s2) as [d r1] eqn:S1.
  destruct d as [| d0 d]; [discriminate |].
  destruct r1 as [| c1 s3]; [discriminate |].
  destruct (span not_slash s3) as [t r2] eqn:S2.
  destruct t as [| t0 t]; [discriminate |].
  destruct r2 as [| c2 s4]; [discriminate |].
  destruct (span not_slash s4) as [k r3] eqn:S3.
  destruct k as [| k0 k]; [discriminate |].
  injection H as <- <- <-.
  apply span_some in S1 as [_ F1]. apply span_some in S2 as [_ F2].
  apply span_some in S3 as [_ F3].
  split.
  - rewrite app_assoc.
    apply (startsWith_app_self (lit "at://" ++ lit "did:")).
  - exists (d0 :: d). repeat split; try discriminate; assumption.
Qed.

Lemma forallb_rev_true {A} (f : A -> bool) (l : list A) :
  forallb f l = true -> forallb f (rev l) = true.
Proof.
  rewrite !forallb_forall. intros H x Hx. apply H, in_rev, Hx.
Qed.

(** Every segment of a split is free of the separator, and keeps what the
    text was free of. *)
Lemma split_on_from_segments (Q : code_unit -> bool) (sep : code_unit)
    (acc s : jsstring) :
  forallb Q acc = true -> forallb (fun c => negb (c =? sep)%N) acc = true ->
  forallb Q s = true ->
  Forall (fun seg => forallb Q seg = true
                     /\ forallb (fun c => negb (c =? sep)%N) seg = true)
    (split_on_from sep acc s).
Proof.
  revert acc. induction s as [| c s IH]; intros acc Hacc Hsep Hs;
    cbn [split_on_from].
  - constructor; [| constructor].
    split; apply forallb_rev_true; assumption.
  - cbn [forallb] in Hs. apply andb_true_iff in Hs as [Hc Hs].
    destruct (c =? sep)%N eqn:E.
    + constructor.
      * split; apply forallb_rev_true; assumption.
      * apply IH; [reflexivity | reflexivity | exact Hs].
    + apply IH; [| | exact Hs]; cbn [forallb].
      * rewrite Hc, Hacc. reflexivity.
      * rewrite E, Hsep. reflexivity.
Qed.

Lemma at_some_In {A} (l : list A) (i : Z) (x : A) : at_ l i = Some x -> In x l.
Proof.
  unfold at_. destruct (_ <? 0); [discriminate |]. apply nth_error_In.
Qed.

(** X7.  A URL returned by [uriToPostUrl] has the shape
    [<profileUrl>/did:<id>/<segment>/<rkey>] with [id] and [rkey] not empty,
    no slash in [id], [segment] and [rkey], and no dot in [segment]; and one
    is returned only for a URI that contains [at://did:].  For any other URI
    the result is [undefined]. *)
Theorem uriToPostUrl_shape (profileUrl uri postUrl : jsstring) :
  uriToPostUrl profileUrl uri = Some postUrl ->
  includes uri (lit "at://did:") = true
  /\ exists id segment rkey,
       postUrl = profileUrl ++ slash ++ (lit "did:" ++ id) ++ slash
                 ++ segment ++ slash ++ rkey
       /\ id <> [] /\ rkey <> []
       /\ forallb not_slash id = true
       /\ forallb not_slash segment = true
       /\ forallb not_dot segment = true
       /\ forallb not_slash rkey = true.
Proof.
  unfold uriToPostUrl. intros H.
  destruct (match_first AT_URI_here uri) as [[[did type] rkey] |] eqn:E;
    [| discriminate].
  apply match_first_some in E as [before [after [-> Hhere]]].
  apply AT_URI_here_some in Hhere
    as [Hstart [id [-> [Hid [Fid [Htype [Ftype [Hrkey Frkey]]]]]]]].
  split.
  - apply includes_app_right, includes_startsWith, Hstart.
  - pose proof (@split_on_from_segments not_slash 46%N [] type
                  eq_refl eq_refl Ftype) as Hsegs.
    destruct (at_ (split_on 46%N type) (-1)) as [segment |] eqn:Hat.
    + apply at_some_In in Hat. unfold split_on in Hat.
      rewrite Forall_forall in Hsegs. destruct (Hsegs _ Hat) as [Fs Fd].
      injection H as <-. exists id, segment, rkey.
      repeat split; assumption.
    + exfalso. unfold split_on in Hat.
      assert (Hne : split_on_from 46%N [] type <> []).
      { destruct type; [congruence |]. clear.
        generalize (@nil code_unit). generalize (c :: type).
        intros s. induction s as [| x s IH]; intros acc; cbn [split_on_from];
          [discriminate |].
        destruct (x =? 46)%N; [discriminate | apply IH]. }
      destruct (split_on_from 46%N [] type) as [| x l] eqn:El using rev_ind;
        [congruence |].
      rewrite at_last in Hat. discriminate.
Qed.

End PostUrlMore.

Lemma uriToPostUrl_shape_witness :
  includes sample_uri (lit "at://did:") = true.
Proof.
  apply (proj1 (@uriToPostUrl_shape (lit "https://bsky.app/profile") sample_uri
                  (lit "https://bsky.app/profile/did:plc:abc/post/xyz")
                  eq_refl)).
Defined.

Section PostPartsFacts.

Variable env : Env.

Lemma split_on_from_segment (sep : code_unit) (acc a rest : jsstring) :
  forallb (fun c => negb (c =? sep)%N) a = true ->
  split_on_from sep acc (a ++ sep :: rest)
  = (rev acc ++ a) :: split_on_from sep [] rest.
Proof.
  revert acc. induction a as [| c a IH]; intros acc Ha.
  - cbn [app split_on_from]. rewrite N.eqb_refl, app_nil_r. reflexivity.
  - cbn [forallb] in Ha. apply andb_true_iff in Ha as [Hc Ha].
    apply negb_true_iff in Hc. cbn [app split_on_from]. rewrite Hc.
    rewrite (IH _ Ha). cbn [rev]. rewrite <- app_assoc. reflexivity.
Qed.

(** X8.  For a post URL whose path is [/<a>/<did>/<b>/<rkey>], as in
    [/profile/did:plc:abc/post/xyz], [getPostParts] returns [did] and
    [rkey]; when the path stops after [did], the [rkey] is [undefined]; and
    when the URL does not parse, the error of the parser is thrown. *)
Theorem getPostParts_of_path (url a did b rkey : jsstring) :
  forallb not_slash a = true -> forallb not_slash did = true ->
  forallb not_slash b = true -> forallb not_slash rkey = true ->
  (url_pathname env url
   = Ok (slash ++ a ++ slash ++ did ++ slash ++ b ++ slash ++ rkey) ->
   getPostParts env url = Ok (Some did, Some rkey))
  /\ (url_pathname env url = Ok (slash ++ a ++ slash ++ did) ->
      getPostParts env url = Ok (Some did, None))
  /\ (forall e, url_pathname env url = Throw e ->
        getPostParts env url = Throw e).
Proof.
  intros Fa Fdid Fb Frkey. unfold getPostParts, split_on.
  split; [| split]; intros; try (intros e He; rewrite He; reflexivity).
  - rewrite H. f_equal.
    change (slash ++ a ++ slash ++ did ++ slash ++ b ++ slash ++ rkey)
      with ([] ++ 47%N :: a ++ 47%N :: did ++ 47%N :: b ++ 47%N :: rkey).
    rewrite (@split_on_from_segment 47%N [] [] _ eq_refl).
    rewrite (@split_on_from_segment 47%N [] a _ Fa).
    rewrite (@split_on_from_segment 47%N [] did _ Fdid).
    rewrite (@split_on_from_segment 47%N [] b _ Fb).
    rewrite (@split_on_from_none 47%N [] rkey Frkey). reflexivity.
  - rewrite H. f_equal.
    change (slash ++ a ++ slash ++ did) with ([] ++ 47%N :: a ++ 47%N :: did).
    rewrite (@split_on_from_segment 47%N [] [] _ eq_refl).
    rewrite (@split_on_from_segment 47%N [] a _ Fa).
    rewrite (@split_on_from_none 47%N [] did Fdid). reflexivity.
  - rewrite H. reflexivity.
Qed.

End PostPartsFacts.

Lemma getPostParts_of_path_witness :
  getPostParts sample_path_env
    (lit "https://bsky.app/profile/did:plc:abc/post/xyz")
  = Ok (Some (lit "did:plc:abc"), Some (lit "xyz")).
Proof.
  refine (proj1 (@getPostParts_of_path sample_path_env
                   (lit "https://bsky.app/profile/did:plc:abc/post/xyz")
                   (lit "profile") (lit "did:plc:abc") (lit "post") (lit "xyz")
                   _ _ _ _) _);
    reflexivity.
Defined.

(** * Further properties of the URL harvest *)

Section HarvestFacts.

(** Every match of a global expression is a match at some position. *)
Lemma matchAll_from_In {A} (here : jsstring -> option (A * jsstring))
    (skip : nat) (s : jsstring) (m : A) :
  In m (matchAll_from here skip s) ->
  exists s' rest, here s' = Some (m, rest).
Proof.
  revert skip. induction s as [| c s IH]; intros skip H; [contradiction |].
  cbn [matchAll_from] in H. destruct skip as [| k]; [| exact (IH _ H)].
  destruct (here (c :: s)) as [[m' rest] |] eqn:E; [| exact (IH _ H)].
  destruct H as [<- | H]; [| exact (IH _ H)].
  exists (c :: s), rest. exact E.
Qed.

Lemma strip_prefix_ci_some (pat s m r : jsstring) :
  strip_prefix_ci pat s = Some (m, r) ->
  s = m ++ r /\ map fold_case m = map fold_case pat.
Proof.
  revert s m. induction pat as [| p pat IH]; intros s m H.
  - simpl in H. destruct s; injection H as <- <-; split; reflexivity.
  - destruct s as [| c s]; simpl in H; [discriminate |].
    destruct (N.eqb_spec (fold_case c) (fold_case p)) as [Hc |];
      [| discriminate].
    destruct (strip_prefix_ci pat s) as [[m' r'] |] eqn:E; [| discriminate].
    injection H as <- <-. destruct (IH _ _ E) as [-> Hm].
    split; [reflexivity |]. cbn [map]. rewrite Hc, Hm. reflexivity.
Qed.

Lemma http_scheme_ci_some (s scheme r : jsstring) :
  http_scheme_ci s = Some (scheme, r) ->
  s = scheme ++ r
  /\ (map fold_case scheme = lit "HTTP://"
      \/ map fold_case scheme = lit "HTTPS://").
Proof.
  unfold http_scheme_ci. intros H.
  destruct (strip_prefix_ci (lit "http") s) as [[m1 s1] |] eqn:E1;
    [| discriminate].
  apply strip_prefix_ci_some in E1 as [-> F1].
  destruct (strip_prefix_ci (lit "s://") s1) as [[m2 s2] |] eqn:E2.
  - injection H as <- <-. apply strip_prefix_ci_some in E2 as [-> F2].
    split; [apply app_assoc |]. right. rewrite map_app, F1, F2. reflexivity.
  - destruct (strip_prefix_ci (lit "://") s1) as [[m2 s2] |] eqn:E3;
      [| discriminate].
    injection H as <- <-. apply strip_prefix_ci_some in E3 as [-> F3].
    split; [apply app_assoc |]. left. rewrite map_app, F1, F3. reflexivity.
Qed.

Lemma fold_case_slash (c : code_unit) : fold_case c = 47%N -> c = 47%N.
Proof.
  unfold fold_case.
  destruct (N.leb_spec 97 c); destruct (N.leb_spec c 122); cbn [andb];
    intros Hfold; lia.
Qed.

(** A scheme, in any case, ends with a slash. *)
Lemma scheme_ends_with_slash (scheme : jsstring) :
  map fold_case scheme = lit "HTTP://"
  \/ map fold_case scheme = lit "HTTPS://" ->
  exists pre, scheme = pre ++ [47%N].
Proof.
  intros [H | H].
  - do 7 (destruct scheme as [| ?c scheme]; [discriminate |]).
    destruct scheme; [| discriminate].
    injection H as _ _ _ _ _ _ H. apply fold_case_slash in H. subst.
    eexists [_; _; _; _; _; _]. reflexivity.
  - do 8 (destruct scheme as [| ?c scheme]; [discriminate |]).
    destruct scheme; [| discriminate].
    injection H as _ _ _ _ _ _ _ H. apply fold_case_slash in H. subst.
    eexists [_; _; _; _; _; _; _]. reflexivity.
Qed.

Variable p : code_unit -> bool.

Lemma span_rest_head (s a b : jsstring) :
  span p s = (a, b) -> b = [] \/ exists c b', b = c :: b' /\ p c = false.
Proof.
  revert a b. induction s as [| c s IH]; intros a b H; simpl in H.
  - injection H as <- <-. left. reflexivity.
  - destruct (p c) eqn:Hc.
    + destruct (span p s) as [a' b'] eqn:E. injection H as <- <-.
      apply (IH a' b' eq_refl).
    + injection H as <- <-. right. exists c, s. split; [reflexivity | exact Hc].
Qed.

Lemma span_app_stop_rest (x : jsstring) (c : code_unit) (y : jsstring) :
  p c = false -> snd (span p (x ++ c :: y)) = snd (span p x) ++ c :: y.
Proof.
  intros Hc. induction x as [| d x IH]; cbn [app span].
  - rewrite Hc. reflexivity.
  - destruct (p d); [| reflexivity].
    destruct (span p (x ++ c :: y)) as [a b].
    destruct (span p x) as [a' b']. exact IH.
Qed.

Lemma strip_trailing_last (s body : jsstring) (c : code_unit) :
  strip_trailing p s = body ++ [c] -> p c = false.
Proof.
  unfold strip_trailing. intros H.
  destruct (span p (rev s)) as [a b] eqn:E. cbn [snd] in H.
  apply (f_equal (@rev code_unit)) in H.
  rewrite rev_involutive, rev_app_distr in H. cbn [rev app] in H.
  destruct (span_rest_head _ E) as [-> | [c' [b' [-> Hc']]]];
    [discriminate |].
  injection H as -> _. exact Hc'.
Qed.

Lemma strip_trailing_fixed (body : jsstring) (c : code_unit) :
  p c = false -> strip_trailing p (body ++ [c]) = body ++ [c].
Proof.
  intros Hc. unfold strip_trailing. rewrite rev_app_distr. cbn [rev app span].
  rewrite Hc. cbn [snd].
  change (c :: rev body) with ([c] ++ rev body).
  rewrite rev_app_distr, rev_involutive. reflexivity.
Qed.

Lemma strip_trailing_app (a : jsstring) (c : code_unit) (b : jsstring) :
  p c = false ->
  strip_trailing p ((a ++ [c]) ++ b) = (a ++ [c]) ++ strip_trailing p b.
Proof.
  intros Hc. unfold strip_trailing.
  rewrite !rev_app_distr. cbn [rev app].
  rewrite (span_app_stop_rest (rev b) (rev a) Hc).
  rewrite rev_app_distr. cbn [rev]. rewrite rev_involutive. reflexivity.
Qed.

Lemma strip_trailing_forallb (Q : code_unit -> bool) (s : jsstring) :
  forallb Q s = true -> forallb Q (strip_trailing p s) = true.
Proof.
  intros H. unfold strip_trailing. apply forallb_rev_true.
  destruct (span p (rev s)) as [a b] eqn:E. cbn [snd].
  apply span_some in E as [E _].
  apply forallb_rev_true in H. rewrite E, forallb_app in H.
  apply andb_true_iff in H as [_ H]. exact H.
Qed.

End HarvestFacts.

(** X9.  Every URL [extractUrlsFromText] returns starts with [http://] or
    [https://], in any case, continues without white space, angle bracket,
    quote, closing parenthesis or closing square bracket, and does not end
    with one of the punctuation marks [. , ; : ! ? )]. *)
Theorem extractUrlsFromText_clean (text : option jsstring) (u : jsstring) :
  In u (extractUrlsFromText text) ->
  (exists scheme rest,
     u = scheme ++ rest
     /\ (map fold_case scheme = lit "HTTP://"
         \/ map fold_case scheme = lit "HTTPS://")
     /\ forallb bare_url_char rest = true)
  /\ (forall body c, u = body ++ [c] -> trailing_punctuation c = false).
Proof.
  intros Hin. unfold extractUrlsFromText in Hin.
  destruct (negb (truthy_opt text)); [contradiction |].
  apply in_map_iff in Hin as [m [<- Hm]].
  apply matchAll_from_In in Hm as [s' [rest Hhere]].
  unfold bare_url_here in Hhere.
  destruct (http_scheme_ci s') as [[scheme s1] |] eqn:Es; [| discriminate].
  destruct (span bare_url_char s1) as [run rest'] eqn:Er.
  destruct run as [| r0 run]; [discriminate |].
  injection Hhere as <- <-.
  apply http_scheme_ci_some in Es as [_ Hscheme].
  apply span_some in Er as [_ Frun].
  destruct (@scheme_ends_with_slash scheme Hscheme) as [pre ->].
  pose proof (@strip_trailing_forallb trailing_punctuation bare_url_char
                (r0 :: run) Frun) as Frun1.
  pose proof (@strip_trailing_last trailing_punctuation (r0 :: run)) as Hlast.
  pose proof (@strip_trailing_app trailing_punctuation pre 47%N (r0 :: run)
                eq_refl) as Hfirst.
  set (run1 := strip_trailing trailing_punctuation (r0 :: run)) in *.
  assert (Hfixed : strip_trailing (fun c => (c =? 41)%N) run1 = run1).
  { destruct (list_eq_dec N.eq_dec run1 []) as [-> | Hne]; [reflexivity |].
    destruct (exists_last Hne) as [body [c Hc]]. rewrite Hc.
    apply (@strip_trailing_fixed (fun c => (c =? 41)%N)).
    specialize (Hlast body c Hc). unfold trailing_punctuation in Hlast.
    repeat (apply orb_false_iff in Hlast as [Hlast ?]). assumption. }
  assert (Hu : strip_trailing (fun c => (c =? 41)%N)
                 (strip_trailing trailing_punctuation
                    ((pre ++ [47%N]) ++ r0 :: run))
               = (pre ++ [47%N]) ++ run1).
  { transitivity (strip_trailing (fun c => (c =? 41)%N)
                    ((pre ++ [47%N]) ++ run1)).
    - f_equal. exact Hfirst.
    - transitivity ((pre ++ [47%N])
                    ++ strip_trailing (fun c => (c =? 41)%N) run1).
      + apply (@strip_trailing_app (fun c => (c =? 41)%N) pre 47%N run1 eq_refl).
      + f_equal. exact Hfixed. }
  split.
  - exists (pre ++ [47%N]), run1. repeat split; assumption.
  - intros body c Hbody.
    assert (Hu' : (pre ++ [47%N]) ++ run1 = body ++ [c])
      by (transitivity
            (strip_trailing (fun c => (c =? 41)%N)
               (strip_trailing trailing_punctuation
                  ((pre ++ [47%N]) ++ r0 :: run)));
          [symmetry; exact Hu | exact Hbody]).
    destruct (list_eq_dec N.eq_dec run1 []) as [Hnil | Hne].
    + rewrite Hnil, app_nil_r in Hu'. apply app_inj_tail in Hu' as [_ <-].
      reflexivity.
    + destruct (exists_last Hne) as [body1 [c1 Hc1]].
      rewrite Hc1, app_assoc in Hu'. apply app_inj_tail in Hu' as [_ <-].
      exact (Hlast body1 c1 Hc1).
Qed.

Lemma extractUrlsFromText_clean_witness :
  (exists scheme rest,
     lit "https://a.example/x" = scheme ++ rest
     /\ (map fold_case scheme = lit "HTTP://"
         \/ map fold_case scheme = lit "HTTPS://")
     /\ forallb bare_url_char rest = true)
  /\ trailing_punctuation 120%N = false.
Proof.
  destruct (@extractUrlsFromText_clean
              (Some (lit "see (https://a.example/x)."))
              (lit "https://a.example/x")
              (or_introl eq_refl)) as [Hshape Hlast].
  split; [exact Hshape |].
  apply (Hlast (lit "https://a.example/")). reflexivity.
Defined.

Section ExternalUrlMore.

Variable url_hostname : jsstring -> result jsstring.

Lemma at_last_None {A} (l : list A) : at_ l (-1) = None -> l = [].
Proof.
  intros H. destruct l as [| x l]; [reflexivity |].
  assert (Hne : x :: l <> []) by discriminate.
  destruct (exists_last Hne) as [l' [a Ha]]. rewrite Ha, at_last in H.
  discriminate.
Qed.

Lemma len_zero {A} (l : list A) : (len l =? 0) = true <-> l = [].
Proof.
  destruct l; unfold len; simpl; split; intros H;
    try reflexivity; try discriminate.
Qed.

Lemma filter_empty {A} (f : A -> bool) (l : list A) :
  filter f l = [] -> forall v, In v l -> f v = false.
Proof.
  induction l as [| x l IH]; intros H v Hv; [contradiction |].
  cbn [filter] in H. destruct (f x) eqn:E; [discriminate |].
  destruct Hv as [<- | Hv]; [exact E | apply IH; assumption].
Qed.

(** X10.  Without [like-of], [bookmark-of] and [in-reply-to] markers,
    [getExternalUrl] returns [null] exactly when no URL is found in the
    content, and otherwise one of the URLs found.  With an own domain, it
    returns a URL whose host name contains that domain only when every URL
    found has such a host name. *)
Theorem getExternalUrl_from_content
    (properties : Properties) (ownDomain : option jsstring) :
  truthy_opt (like_of properties) = false ->
  truthy_opt (bookmark_of properties) = false ->
  truthy_opt (in_reply_to properties) = false ->
  (getExternalUrl url_hostname properties ownDomain = None
   <-> harvestUrls properties = [])
  /\ (forall u,
        getExternalUrl url_hostname properties ownDomain = Some u ->
        In u (harvestUrls properties))
  /\ (forall u host,
        truthy_opt ownDomain = true ->
        getExternalUrl url_hostname properties ownDomain = Some u ->
        url_hostname u = Ok host ->
        includes host (or_empty ownDomain) = true ->
        forall v, In v (harvestUrls properties) ->
          exists host', url_hostname v = Ok host'
                        /\ includes host' (or_empty ownDomain) = true).
Proof.
  intros Hlike Hbookmark Hreply.
  unfold getExternalUrl. rewrite Hlike, Hbookmark, Hreply. cbv zeta.
  fold (harvestUrls properties).
  set (urls := harvestUrls properties).
  set (own := fun url =>
                match url_hostname url with
                | Ok hostname => negb (includes hostname (or_empty ownDomain))
                | Throw _ => true
                end).
  destruct (len urls =? 0) eqn:Hzero.
  - apply len_zero in Hzero. rewrite Hzero.
    split; [split; reflexivity | split; discriminate].
  - assert (Hne : urls <> []).
    { intros Hnil. apply len_zero in Hnil. congruence. }
    assert (Hlast : forall u, at_ urls (-1) = Some u -> In u urls)
      by (intros u; apply at_some_In).
    destruct (truthy_opt ownDomain) eqn:Hown.
    + destruct (Z.gtb_spec (len (filter own urls)) 0) as [Hsome | Hnone].
      * split; [| split].
        -- split; [| contradiction]. intros H. apply at_last_None in H.
           rewrite H in Hsome. unfold len in Hsome. simpl in Hsome. lia.
        -- intros u Hu. apply at_some_In, filter_In in Hu. tauto.
        -- intros u host _ Hu Hhost Hin. exfalso.
           apply at_some_In, filter_In in Hu as [_ Hu]. unfold own in Hu.
           rewrite Hhost, Hin in Hu. discriminate.
      * assert (Hempty : filter own urls = []).
        { destruct (filter own urls); [reflexivity |].
          unfold len in Hnone. simpl in Hnone. lia. }
        split; [| split].
        -- split; [| contradiction]. intros H. apply at_last_None, H.
        -- exact Hlast.
        -- intros u host _ _ _ _ v Hv.
           pose proof (filter_empty own urls Hempty v Hv) as Hf. unfold own in Hf.
           destruct (url_hostname v) as [host' |]; [| discriminate].
           exists host'. split; [reflexivity |].
           apply negb_false_iff, Hf.
    + split; [| split].
      * split; [| contradiction]. intros H. apply at_last_None, H.
      * exact Hlast.
      * discriminate.
Qed.

End ExternalUrlMore.

Lemma getExternalUrl_from_content_witness :
  In (lit "https://a.example/x")
     (harvestUrls (note (lit "https://me.example/p1")
                     (lit "hello https://a.example/x"))).
Proof.
  apply (proj1 (proj2 (@getExternalUrl_from_content no_url_parser
                         (note (lit "https://me.example/p1")
                            (lit "hello https://a.example/x"))
                         None eq_refl eq_refl eq_refl))).
  reflexivity.
Defined.

(** * Further properties of the text extraction *)

Section StatusTextFacts.

Variable htmlToText : jsstring -> jsstring.

Lemma matchAll_from_suffix {A} (here : jsstring -> option (A * jsstring))
    (skip : nat) (s : jsstring) (m : A) :
  In m (matchAll_from here skip s) ->
  exists before s' rest, s = before ++ s' /\ here s' = Some (m, rest).
Proof.
  revert skip. induction s as [| c s IH]; intros skip H; [contradiction |].
  assert (Hlater : forall k, In m (matchAll_from here k s) ->
            exists before s' rest,
              c :: s = before ++ s' /\ here s' = Some (m, rest)).
  { intros k Hk. destruct (IH k Hk) as [before [s' [rest [-> Hm]]]].
    exists (c :: before), s', rest. split; [reflexivity | exact Hm]. }
  cbn [matchAll_from] in H. destruct skip as [| k]; [| exact (Hlater _ H)].
  destruct (here (c :: s)) as [[m' rest] |] eqn:E; [| exact (Hlater _ H)].
  destruct H as [<- | H]; [| exact (Hlater _ H)].
  exists [], (c :: s), rest. split; [reflexivity | exact E].
Qed.

Lemma http_scheme_some (s scheme r : jsstring) :
  http_scheme s = Some (scheme, r) ->
  s = scheme ++ r /\ (scheme = lit "http://" \/ scheme = lit "https://").
Proof.
  unfold http_scheme. intros H.
  destruct (strip_prefix (lit "http") s) as [s1 |] eqn:E1; [| discriminate].
  apply strip_prefix_some in E1. subst s.
  destruct (strip_prefix (lit "s://") s1) as [s2 |] eqn:E2.
  - injection H as <- <-. apply strip_prefix_some in E2. subst s1.
    split; [reflexivity | right; reflexivity].
  - destruct (strip_prefix (lit "://") s1) as [s2 |] eqn:E3; [| discriminate].
    injection H as <- <-. apply strip_prefix_some in E3. subst s1.
    split; [reflexivity | left; reflexivity].
Qed.

Lemma lazy_until_dquote_some (s m r : jsstring) :
  lazy_until_dquote s = Some (m, r) ->
  s = m ++ dquote :: r
  /\ forallb (fun c => negb (is_line_terminator c)) m = true
  /\ forallb (fun c => negb (c =? dquote)%N) m = true.
Proof.
  revert m. induction s as [| c s IH]; intros m H; simpl in H;
    [discriminate |].
  destruct (N.eqb_spec c dquote) as [-> | Hc].
  - injection H as <- <-. repeat split.
  - destruct (is_line_terminator c) eqn:Hlt; [discriminate |].
    destruct (lazy_until_dquote s) as [[m' r'] |]; [| discriminate].
    injection H as <- <-. destruct (IH m' eq_refl) as [-> [F1 F2]].
    split; [reflexivity |]. cbn [forallb]. rewrite Hlt, F1, F2.
    apply N.eqb_neq in Hc. rewrite Hc. split; reflexivity.
Qed.

(** X11.  [htmlToStatusText] returns the rendering of [htmlToText] as it
    is, or followed by one space and a link.  The link starts with
    [http://] or [https://], holds no line terminator, and stands in the
    HTML between [href=], a double quote, and a double quote; when the HTML
    holds no [href=] followed by a double quote the rendering is returned as
    it is. *)
Theorem htmlToStatusText_shape (html : jsstring) :
  (htmlToStatusText htmlToText html = htmlToText html
   \/ exists href,
        htmlToStatusText htmlToText html = htmlToText html ++ space ++ href
        /\ (startsWith href (lit "http://") = true
            \/ startsWith href (lit "https://") = true)
        /\ forallb (fun c => negb (is_line_terminator c)) href = true
        /\ includes html (lit "href=" ++ [dquote] ++ href ++ [dquote]) = true)
  /\ (includes html (lit "href=" ++ [dquote]) = false ->
      htmlToStatusText htmlToText html = htmlToText html).
Proof.
  assert (Hlink : forall href,
            In href (matchAll href_dquoted_here html) ->
            (startsWith href (lit "http://") = true
             \/ startsWith href (lit "https://") = true)
            /\ forallb (fun c => negb (is_line_terminator c)) href = true
            /\ includes html (lit "href=" ++ [dquote] ++ href ++ [dquote])
               = true
            /\ truthy href = true).
  { intros href Hin.
    apply matchAll_from_suffix in Hin as [before [s' [rest [-> Hhere]]]].
    unfold href_dquoted_here in Hhere.
    destruct (strip_prefix (lit "href=" ++ [dquote]) s') as [s1 |] eqn:E1;
      [| discriminate].
    apply strip_prefix_some in E1. subst s'.
    destruct (http_scheme s1) as [[scheme [| c s2]] |] eqn:E2;
      try discriminate.
    apply http_scheme_some in E2 as [-> Hscheme].
    destruct (is_line_terminator c) eqn:Hc; [discriminate |].
    destruct (lazy_until_dquote s2) as [[m r] |] eqn:E3; [| discriminate].
    injection Hhere as <- <-.
    apply lazy_until_dquote_some in E3 as [-> [Flt _]].
    repeat split.
    - destruct Hscheme as [-> | ->]; [left | right];
        apply startsWith_app_self.
    - rewrite forallb_app. cbn [forallb]. rewrite Hc, Flt.
      destruct Hscheme as [-> | ->]; reflexivity.
    - apply includes_app_right.
      replace ((lit "href=" ++ [dquote]) ++ scheme ++ c :: m ++ dquote :: r)
        with ((lit "href=" ++ [dquote] ++ (scheme ++ c :: m) ++ [dquote]) ++ r).
      + apply includes_self.
      + rewrite <- ?app_assoc. cbn [app]. rewrite <- ?app_assoc. reflexivity.
    - destruct Hscheme as [-> | ->]; reflexivity. }
  assert (Hshape :
    htmlToStatusText htmlToText html = htmlToText html
    \/ exists href,
         htmlToStatusText htmlToText html = htmlToText html ++ space ++ href
         /\ In href (matchAll href_dquoted_here html)).
  { unfold htmlToStatusText.
    destruct (0 <? len (matchAll href_dquoted_here html)); [| left; reflexivity].
    destruct (at_ (matchAll href_dquoted_here html) (-1)) as [lastHref |] eqn:E;
      [| left; reflexivity].
    apply at_some_In in E. destruct (Hlink _ E) as [_ [_ [_ Htruthy]]].
    rewrite Htruthy. right. exists lastHref. split; [reflexivity | exact E]. }
  split.
  - destruct Hshape as [Hsame | [href [Heq Hin]]]; [left; exact Hsame |].
    right. exists href. destruct (Hlink _ Hin) as [H1 [H2 [H3 _]]].
    repeat split; assumption.
  - intros Hnone. destruct Hshape as [Hsame | [href [_ Hin]]]; [exact Hsame |].
    exfalso. apply matchAll_from_suffix in Hin as [before [s' [rest [-> Hhere]]]].
    unfold href_dquoted_here in Hhere.
    destruct (strip_prefix (lit "href=" ++ [dquote]) s') as [s1 |] eqn:E1;
      [| discriminate].
    apply strip_prefix_some in E1. subst s'.
    rewrite (includes_app_right before _ _ (includes_self _ s1)) in Hnone.
    discriminate.
Qed.

End StatusTextFacts.

Lemma htmlToStatusText_shape_witness :
  htmlToStatusText (fun s => s) (lit "<p>no link here</p>")
  = lit "<p>no link here</p>".
Proof.
  apply (proj2 (htmlToStatusText_shape (fun s => s)
                  (lit "<p>no link here</p>"))).
  reflexivity.
Defined.

(** * Further properties of images and metadata *)

Section ImageMore.

Variable jpeg_codec : Buffer -> Z -> result Buffer.

Lemma getPostImage_fits (buf : Buffer) (mime : jsstring) (asset : ImageAsset) :
  getPostImage jpeg_codec buf mime = Ok asset ->
  len (buffer asset) <= MAX_SIZE.
Proof.
  unfold getPostImage. change MAX_SIZE with 1048576.
  destruct (Z.ltb_spec (len buf) 1048576) as [Hsmall | Hbig].
  - intros H. injection H as <-. cbn [buffer]. lia.
  - destruct (constrainImage jpeg_codec buf 1048576 90) as [c | e] eqn:Hrun;
      [| discriminate].
    intros H. injection H as <-. cbn [buffer].
    destruct (constrainImage_within jpeg_codec 19 buf 1048576 90)
      as [r |] eqn:Hwithin.
    + pose proof (constrainImage_within_sound _ _ _ _ _ Hwithin) as Hsound.
      rewrite Hrun in Hsound. subst r.
      apply (constrainImage_within_fits _ _ _ _ _ Hwithin).
    + exfalso. revert Hwithin.
      apply (constrainImage_within_enough jpeg_codec 18 buf 1048576). lia.
Qed.

(** X12.  An image [getPostImage] returns is never longer than 1048576
    bytes, whatever the encoder does. *)
Theorem getPostImage_within_budget (buf : Buffer) (mime : jsstring)
    (asset : ImageAsset) :
  getPostImage jpeg_codec buf mime = Ok asset ->
  len (buffer asset) <= 1048576.
Proof. apply getPostImage_fits. Qed.

End ImageMore.

Lemma getPostImage_within_budget_witness :
  len (buffer (mkImageAsset sample_image (lit "image/png"))) <= 1048576.
Proof.
  apply (@getPostImage_within_budget two_byte_codec sample_image
           (lit "image/png")).
  reflexivity.
Defined.

Section MetadataMore.

Variable env : Env.





End MetadataMore.


(** * Further properties of the uploads and of the link card *)

Ltac spec_step :=
  first
    [ apply spec_ret; first [exact I | reflexivity]
    | apply spec_throw
    | apply spec_lift
    | apply spec_call; first [reflexivity | split; [reflexivity | exact I]]
    | apply spec_try_catch; [| intros ? ]
    | apply spec_bind with (R1 := any); [| intros ? _ ]
    | apply spec_if
    | match goal with
      | |- run_spec _ _ (match ?o with _ => _ end) => destruct o
      end ].

Section UploadFacts.

Variable env : Env.
Variable this : Bluesky.

Lemma spec_lift_val {A} (P : Event -> Prop) (R : A -> Prop) (r : result A) :
  (forall a, r = Ok a -> R a) -> run_spec P R (lift r).
Proof. intros H tr. split; [apply extends_refl | exact H]. Qed.

(** A [catch] block that returns makes the whole [try] return. *)
Lemma try_catch_returns {A} (m : M A) (h : Error -> M A) (tr : Trace) :
  (forall e tr', exists a, fst (h e tr') = Ok a) ->
  exists a, fst (try_catch m h tr) = Ok a.
Proof.
  intros Hh. unfold try_catch. destruct (m tr) as [[a | e] tr'].
  - exists a. reflexivity.
  - apply Hh.
Qed.

(** X14.  [uploadImageFromUrl] never throws; it creates no record on the
    account; every blob it uploads is at most 1048576 bytes long; and
    without an image URL it returns [null] without any call. *)
Theorem uploadImageFromUrl_safe (imageUrl : option jsstring) (tr : Trace) :
  (exists blob, fst (uploadImageFromUrl env this imageUrl tr) = Ok blob)
  /\ extends_with (fun e => quiet e /\ small_upload e) tr
       (snd (uploadImageFromUrl env this imageUrl tr))
  /\ (truthy_opt imageUrl = false ->
      uploadImageFromUrl env this imageUrl tr = (Ok None, tr)).
Proof.
  split; [| split].
  - unfold uploadImageFromUrl.
    destruct (negb (truthy_opt imageUrl)); [exists None; reflexivity |].
    apply try_catch_returns. intros e tr'. exists None. reflexivity.
  - assert (Hspec : run_spec (fun e => quiet e /\ small_upload e) any
                      (uploadImageFromUrl env this imageUrl)).
    { unfold uploadImageFromUrl, client, fetch, uploadBlob, console_error.
      repeat first
        [ match goal with
          | |- run_spec _ _ (bind (lift (getPostImage _ _ _)) _) =>
              apply spec_bind
                with (R1 := fun image : ImageAsset =>
                              len (buffer image) <= MAX_SIZE);
              [ apply spec_lift_val; intros ?; apply getPostImage_fits
              | intros ? ? ]
          | |- run_spec _ _ (call _ (EvUploadBlob _ _)) =>
              apply spec_call; split; [reflexivity | assumption]
          end
        | spec_step ]. }
    apply Hspec.
  - intros Hnone. unfold uploadImageFromUrl. rewrite Hnone. reflexivity.
Qed.


End UploadFacts.

Section CardFacts.

Variable env : Env.
Variable this : Bluesky.

Lemma fetchOpenGraphData_quiet (P : Event -> Prop) (url : jsstring) :
  (forall u, P (EvFetch u)) -> (forall m, P (EvConsoleError m)) ->
  run_spec P any (fetchOpenGraphData env url).
Proof.
  intros Hfetch Herr.
  unfold fetchOpenGraphData, fetchOpenGraphData_try, fetch, console_error.
  repeat first
    [ match goal with
      | |- run_spec _ _ (call _ _) => apply spec_call; auto
      end
    | spec_step ].
Qed.

(** What [createExternalEmbed] does and returns. *)
Lemma createExternalEmbed_spec (url : option jsstring) (options : EmbedOptions) :
  run_spec card_events
    (fun r => r = None
              \/ exists card,
                   r = Some (EmbedExternal card)
                   /\ url = Some (ext_uri card)
                   /\ truthy (ext_uri card) = true
                   /\ truthy (ext_title card) = true)
    (createExternalEmbed env this url options).
Proof.
  unfold createExternalEmbed.
  destruct url as [target |]; [| apply spec_ret; left; reflexivity].
  cbn [truthy_opt or_empty].
  destruct (truthy target) eqn:Htarget; cbn [negb];
    [| apply spec_ret; left; reflexivity].
  apply spec_try_catch.
  - apply spec_bind with (R1 := any);
      [apply fetchOpenGraphData_quiet; intros; exact I | intros ogData _].
    apply spec_bind with (R1 := any).
    { apply spec_if; [| apply spec_ret; exact I].
      unfold uploadImageFromUrl, client, fetch, uploadBlob, console_error.
      repeat first
        [ match goal with
          | |- run_spec _ _ (call _ _) => apply spec_call; exact I
          end
        | spec_step ]. }
    intros thumb0 _.
    apply spec_bind with (R1 := any).
    { apply spec_if; [| apply spec_ret; exact I].
      unfold generateDefaultOgImage, client, uploadBlob, console_error.
      repeat first
        [ match goal with
          | |- run_spec _ _ (call _ _) => apply spec_call; exact I
          end
        | spec_step ]. }
    intros thumb _. apply spec_ret. right. eexists.
    split; [reflexivity |]. cbn [ext_uri ext_title].
    split; [reflexivity |]. split; [exact Htarget |].
    destruct (truthy (title ogData)) eqn:Htitle; assumption.
  - intros e. unfold console_error.
    apply spec_bind with (R1 := any); [apply spec_call; exact I |].
    intros _ _. apply spec_ret. left. reflexivity.
Qed.

(** X16.  [createExternalEmbed] never throws and creates no record on the
    account.  It returns [null] or a link card; the card is over the URL
    given, which is not empty, and its title is not empty.  Without a URL it
    returns [null] without any call. *)
Theorem createExternalEmbed_safe (url : option jsstring)
    (options : EmbedOptions) (tr : Trace) :
  (exists r, fst (createExternalEmbed env this url options tr) = Ok r)
  /\ extends_with quiet tr (snd (createExternalEmbed env this url options tr))
  /\ (forall r,
        fst (createExternalEmbed env this url options tr) = Ok r ->
        r = None
        \/ exists card,
             r = Some (EmbedExternal card)
             /\ url = Some (ext_uri card)
             /\ truthy (ext_uri card) = true
             /\ truthy (ext_title card) = true)
  /\ (truthy_opt url = false ->
      createExternalEmbed env this url options tr = (Ok None, tr)).
Proof.
  destruct (createExternalEmbed_spec url options tr) as [Hext Hval].
  split; [| split; [| split]].
  - unfold createExternalEmbed.
    destruct (negb (truthy_opt url)); [exists None; reflexivity |].
    apply try_catch_returns. intros e tr'. exists None. reflexivity.
  - eapply extends_weaken; [| exact Hext].
    intros [] He; try reflexivity; contradiction.
  - exact Hval.
  - intros Hnone. unfold createExternalEmbed. rewrite Hnone. reflexivity.
Qed.

End CardFacts.

(** * Further properties of the dispatcher *)

Ltac run_calls :=
  repeat first
    [ match goal with
      | |- run_spec _ _ (call _ _) => apply spec_call; exact I
      | |- run_spec _ _ (now _) =>
          intros ?; split; [apply extends_refl | intros; exact I]
      end
    | spec_step ].

Section DispatchFacts.

Variable env : Env.
Variable this : Bluesky.

Lemma spec_weaken_events {A} (P Q : Event -> Prop) (R : A -> Prop) (m : M A) :
  (forall e, P e -> Q e) -> run_spec P R m -> run_spec Q R m.
Proof.
  intros HPQ Hm tr. destruct (Hm tr) as [Hext Hval].
  split; [eapply extends_weaken; eassumption | exact Hval].
Qed.

(** Lines 322-333 only log in, fetch and upload. *)
Lemma post_uploads_phase (properties : Properties) (me : jsstring) :
  run_spec upload_phase any (post_uploads env this properties me).
Proof.
  unfold post_uploads, client.
  apply spec_bind with (R1 := any); [apply spec_call; exact I | intros _ _].
  destruct (photo properties) as [all |]; [| apply spec_ret; exact I].
  eapply spec_weaken; [| apply spec_Promise_all].
  - intros; exact I.
  - apply Forall_map, Forall_forall. intros media _.
    unfold uploadMedia, client, fetch, uploadBlob. run_calls.
Qed.

(** A run of [post] is the upload phase followed by the cascade. *)
Lemma post_spec (P : Event -> Prop) (properties : Properties) (me : jsstring) :
  (forall e, upload_phase e -> P e) ->
  (forall images, run_spec P any (post_dispatch env this properties images)) ->
  forall tr, extends_with P tr (snd (post env this properties me tr)).
Proof.
  intros Hphase Hdispatch tr.
  assert (Hspec : run_spec P any (post env this properties me)).
  { unfold post. apply spec_try_catch; [| intros e; apply spec_throw].
    apply spec_bind with (R1 := any); [| intros images _; apply Hdispatch].
    eapply spec_weaken_events; [exact Hphase | apply post_uploads_phase]. }
  apply Hspec.
Qed.

Lemma spec_lift_ok {A} (P : Event -> Prop) (a : A) :
  run_spec P (fun x => x = a) (lift (Ok a)).
Proof. apply spec_lift_val. intros x H. injection H as <-. reflexivity. Qed.

(** X17.  For a post with a [repost-of] marker whose URL is not of the
    origin of the profile, and with [syndicateExternalReposts] false, [post]
    creates no record on the account; once the session is opened and the
    photos, if any, are uploaded, it makes no further call and returns
    [undefined]. *)
Theorem external_repost_disabled_is_noop
    (properties : Properties) (me repostUrl : jsstring) (tr : Trace) :
  repost_of properties = Some repostUrl ->
  truthy repostUrl = true ->
  isSameOrigin env repostUrl (profileUrl this) = Ok false ->
  syndicateExternalReposts this = false ->
  extends_with quiet tr (snd (post env this properties me tr))
  /\ (forall images tr1,
        post_uploads env this properties me tr = (Ok images, tr1) ->
        post env this properties me tr = (Ok None, tr1)).
Proof.
  intros Hrepost Hpresent Hexternal Hdisabled.
  assert (Hdispatch : forall images tr1,
            post_dispatch env this properties images tr1 = (Ok None, tr1)).
  { intros images tr1. unfold post_dispatch. rewrite Hrepost.
    cbn [truthy_opt or_empty]. rewrite Hpresent.
    unfold bind, lift. rewrite Hexternal. cbn [andb].
    rewrite Hdisabled. reflexivity. }
  split.
  - apply post_spec.
    + intros [] He; try reflexivity; contradiction.
    + intros images tr1. rewrite Hdispatch. split; [apply extends_refl |].
      intros; exact I.
  - intros images tr1 Huploads. unfold post, try_catch, bind.
    rewrite Huploads, Hdispatch. reflexivity.
Qed.

(** X18.  A like of a URL of the origin of the profile (without
    [repost-of] marker), and a repost of such a URL without content, are
    native actions: [post] creates no post record and annotates no text. *)
Theorem same_origin_like_and_repost_are_native
    (properties : Properties) (me target : jsstring) (tr : Trace) :
  truthy target = true ->
  isSameOrigin env target (profileUrl this) = Ok true ->
  (truthy_opt (repost_of properties) = false
   /\ like_of properties = Some target)
  \/ (repost_of properties = Some target /\ content properties = None) ->
  extends_with native_only tr (snd (post env this properties me tr)).
Proof.
  intros Hpresent Hsame Hcases. apply post_spec.
  - intros [] He; try exact I; contradiction.
  - intros images. unfold post_dispatch.
    destruct Hcases as [[Hrepost Hlike] | [Hrepost Hcontent]].
    + rewrite Hrepost, Hlike. cbn [truthy_opt or_empty]. rewrite Hpresent, Hsame.
      apply spec_bind with (R1 := fun b => b = true);
        [apply spec_lift_ok | intros same ->].
      unfold postLike, getPost, client. run_calls.
    + rewrite Hrepost, Hcontent. cbn [truthy_opt or_empty is_some].
      rewrite Hpresent, Hsame.
      apply spec_bind with (R1 := fun b => b = true);
        [apply spec_lift_ok | intros same ->].
      cbn [andb].
      apply spec_bind with (R1 := fun b => b = true);
        [apply spec_lift_ok | intros same ->].
      unfold postRepost, getPost, client. run_calls.
Qed.








(** X22.  The upload phase of [post] only logs in, fetches and uploads;
    it returns one image for each of the first four photos, and no image
    when there is no [photo] property. *)
Theorem post_uploads_at_most_four (properties : Properties) (me : jsstring)
    (tr tr' : Trace) (gallery : list Image) :
  post_uploads env this properties me tr = (Ok gallery, tr') ->
  extends_with upload_phase tr tr'
  /\ length gallery
     = match photo properties with
       | Some all => Nat.min 4 (length all)
       | None => 0%nat
       end.
Proof.
  intros Hrun.
  destruct (post_uploads_phase properties me tr) as [Hext _].
  destruct (post_uploads_quiet env this properties me tr) as [_ Hlen].
  rewrite Hrun in Hext, Hlen. cbn [fst snd] in Hext, Hlen.
  split; [exact Hext | apply Hlen; reflexivity].
Qed.

End DispatchFacts.

Lemma uploadImageFromUrl_safe_witness :
  uploadImageFromUrl (sample_env true) sample_account None [] = (Ok None, []).
Proof.
  apply (proj2 (proj2 (uploadImageFromUrl_safe (sample_env true)
                         sample_account None []))).
  reflexivity.
Defined.


Lemma createExternalEmbed_safe_witness :
  createExternalEmbed (sample_env true) sample_account None no_embed_options []
  = (Ok None, []).
Proof.
  apply (proj2 (proj2 (proj2 (createExternalEmbed_safe (sample_env true)
                                sample_account None no_embed_options [])))).
  reflexivity.
Defined.

Lemma external_repost_disabled_is_noop_witness :
  post (sample_env true) sample_account_no_reposts sample_external_repost
    sample_me []
  = (Ok None,
     [EvLogin (lit "https://bsky.social") (lit "me.bsky.social")
        (lit "app-password")]).
Proof.
  refine (proj2 (@external_repost_disabled_is_noop (sample_env true)
                   sample_account_no_reposts sample_external_repost sample_me
                   (lit "https://other.example/reposted") [] _ _ _ _)
            [] _ _);
    reflexivity.
Defined.

Lemma same_origin_like_and_repost_are_native_witness :
  extends_with native_only []
    (snd (post (sample_env true) sample_account sample_native_like
            sample_me [])).
Proof.
  apply (@same_origin_like_and_repost_are_native (sample_env true)
           sample_account sample_native_like sample_me sample_own_post []);
    [reflexivity | reflexivity | left; split; reflexivity].
Defined.




Lemma post_uploads_at_most_four_witness :
  exists gallery tr',
    post_uploads (sample_env true) sample_account sample_photo_post sample_me []
    = (Ok gallery, tr')
    /\ length gallery = 4%nat.
Proof.
  destruct (post_uploads (sample_env true) sample_account sample_photo_post
              sample_me []) as [[gallery | e] tr'] eqn:Hrun;
    [| vm_compute in Hrun; discriminate].
  exists gallery, tr'. split; [reflexivity |].
  apply (proj2 (@post_uploads_at_most_four (sample_env true) sample_account
                  sample_photo_post sample_me [] tr' gallery Hrun)).
Defined.
